(** * recognizer: the Playwright [AsyncChallenger] control loop

    A shallow embedding of [recognizer/agents/playwright/async_control.py].

    The challenger drives a browser page (Playwright) and an image
    classifier ([Detector]); neither lives in this file of the repository, so
    both are taken as a parameter: a [World] answers every call the
    challenger awaits.  The coroutine is embedded in a small monad that
    threads the instance fields, may raise a Python exception, and records the
    trace of the calls it makes.  Recursion ([handle_recaptcha] re-entering
    itself, the [while] loop) is bounded by fuel. *)

From Stdlib Require Import ZArith List Bool Ascii String Lia.
Import ListNotations.

Local Open Scope string_scope.
Local Open Scope Z_scope.

(* ================================================================= *)
(** ** Python values and exceptions *)

(** [Union[str, bool]], the result type of the cycle. *)
Inductive PyVal : Type :=
| VStr (s : string)
| VBool (b : bool).

(** Python truthiness of a [str]: non-empty. *)
Definition str_truthy (s : string) : bool :=
  match s with
  | EmptyString => false
  | String _ _ => true
  end.

Definition truthy (v : PyVal) : bool :=
  match v with
  | VStr s => str_truthy s
  | VBool b => b
  end.

(** [isinstance(v, str)] *)
Definition is_str (v : PyVal) : bool :=
  match v with
  | VStr _ => true
  | VBool _ => false
  end.

(** Truthiness of an [Optional[str]] ([None] and the empty string are falsy). *)
Definition opt_truthy (o : option string) : bool :=
  match o with
  | Some s => str_truthy s
  | None => false
  end.

(** The exceptions that occur.  Playwright's [TimeoutError] is a subclass of
    its [Error] (imported as [PlaywrightError]); every constructor is a
    subclass of [Exception].  [RecursionError] carries the [retry_times] that
    its message prints. *)
Inductive exn : Type :=
| TimeoutError
| PlaywrightError
| RecursionError (limit : Z)
| ValueError (msg : string)
| AssertionError
| OtherException (name : string).

(** [isinstance(e, TimeoutError)] *)
Definition is_timeout (e : exn) : bool :=
  match e with
  | TimeoutError => true
  | _ => false
  end.

(** [isinstance(e, PlaywrightError)] *)
Definition is_playwright (e : exn) : bool :=
  match e with
  | TimeoutError | PlaywrightError => true
  | _ => false
  end.

(** What a collaborator's call gives back: a value or a raised exception. *)
Inductive Res (A : Type) : Type :=
| Ok (a : A)
| Err (e : exn).
Arguments Ok {A} a.
Arguments Err {A} e.

(* ================================================================= *)
(** ** Strings: [in] and the token pattern *)

(** The double quote, code point 34. *)
Definition dquote : ascii := ascii_of_nat 34.

(** Python's [sub in s] on strings. *)
Fixpoint contains (sub s : string) : bool :=
  String.prefix sub s ||
  match s with
  | EmptyString => false
  | String _ s' => contains sub s'
  end.

(** [\s] of the [re] module on a [str] pattern, for code points below 256:
    tab to carriage return, the four separators 28 to 31, space, NEL and the
    no-break space. *)
Definition is_space (c : ascii) : bool :=
  let n := nat_of_ascii c in
  ((9 <=? n) && (n <=? 13) || (28 <=? n) && (n <=? 32)
   || (n =? 133) || (n =? 160))%nat.

(** [strip_prefix p s]: the rest of [s] after the literal [p]. *)
Fixpoint strip_prefix (p s : string) : option string :=
  match p with
  | EmptyString => Some s
  | String a p' =>
      match s with
      | EmptyString => None
      | String b s' => if Ascii.eqb a b then strip_prefix p' s' else None
      end
  end.

(** [\s*], greedy: what is left after the leading white space. *)
Fixpoint skip_space (s : string) : string :=
  match s with
  | EmptyString => EmptyString
  | String c s' => if is_space c then skip_space s' else s
  end.

(** The negated class of the double quote, starred and greedy: the longest
    quote-free prefix and the rest. *)
Fixpoint span_nonquote (s : string) : string * string :=
  match s with
  | EmptyString => (EmptyString, EmptyString)
  | String c s' =>
      if Ascii.eqb c dquote then (EmptyString, s)
      else let (run, rest) := span_nonquote s' in (String c run, rest)
  end.

(** The literal uvresp between double quotes. *)
Definition uvresp_label : string :=
  String dquote ("uvresp" ++ String dquote EmptyString).

(** The pattern of line 48 anchored at the head of [s]: the quoted label,
    white space, a comma, white space, then a quoted non-empty run of
    characters other than the double quote, which is group 1.  Each star and
    plus is followed by a character its own class excludes, so the greedy
    choice is the only one. *)
Definition match_uvresp_here (s : string) : option string :=
  match strip_prefix uvresp_label s with
  | None => None
  | Some r1 =>
      match skip_space r1 with
      | String c r2 =>
          if Ascii.eqb c ","%char then
            match skip_space r2 with
            | String q r3 =>
                if Ascii.eqb q dquote then
                  match span_nonquote r3 with
                  | (String t ts, String _ _) => Some (String t ts)
                  | _ => None
                  end
                else None
            | EmptyString => None
            end
          else None
      | EmptyString => None
      end
  end.

(** [re.search] with that pattern, then [.group(1)]: the leftmost position
    where the pattern matches. *)
Fixpoint re_search_uvresp (s : string) : option string :=
  match match_uvresp_here s with
  | Some tok => Some tok
  | None =>
      match s with
      | EmptyString => None
      | String _ s' => re_search_uvresp s'
      end
  end.

(* ================================================================= *)
(** ** The instance and the network observer *)

(** The fields of an [AsyncChallenger] ([page] and [detector] are the
    [World] below), and [clock], the number of suspension points the
    instance has gone through: it indexes the world's answers. *)
Record Challenger : Type := mkChallenger {
  click_timeout : option Z;
  retry_times : Z;
  retried : Z;
  dynamic : bool;
  captcha_token : string;
  clock : nat
}.

Definition set_retried (n : Z) (s : Challenger) : Challenger :=
  mkChallenger (click_timeout s) (retry_times s) n (dynamic s)
               (captcha_token s) (clock s).

Definition set_dynamic (b : bool) (s : Challenger) : Challenger :=
  mkChallenger (click_timeout s) (retry_times s) (retried s) b
               (captcha_token s) (clock s).

Definition set_captcha_token (t : string) (s : Challenger) : Challenger :=
  mkChallenger (click_timeout s) (retry_times s) (retried s) (dynamic s)
               t (clock s).

Definition set_clock (n : nat) (s : Challenger) : Challenger :=
  mkChallenger (click_timeout s) (retry_times s) (retried s) (dynamic s)
               (captcha_token s) n.

(** [__init__]: [retried] starts at 0; the observer is registered on the
    page (the world delivers its requests from then on). *)
Definition init (click_timeout : option Z) (retry_times : Z) : Challenger :=
  mkChallenger click_timeout retry_times 0 false EmptyString 0.

(** [__init__] with the default [retry_times=15]. *)
Definition init_default (click_timeout : option Z) : Challenger :=
  init click_timeout 15.

(** A request as the observer sees it: its URL, what [request.response()]
    resolves to ([None] or a response), and what [response.text()] gives. *)
Record Request : Type := mkRequest {
  url : string;
  response : Res (option (Res string))
}.

(** The URL filter of [request_handler] (line 36): [true] when the request
    is looked at. *)
Definition url_wanted (u : string) : bool :=
  negb ((negb (contains "google.com" u) && negb (contains "recaptcha.net" u))
        || (negb (contains "reload" u) && negb (contains "userverify" u))).

(** The body of the [with suppress(Exception)] block once the response text
    is known (lines 44 to 50).  A failed [assert match] leaves the block
    after [dynamic] was written. *)
Definition observe_text (u text : string) (s : Challenger) : Challenger :=
  let s1 := set_dynamic (contains "dynamic" text) s in
  if contains "userverify" u && negb (contains "rresp" text)
     && negb (contains "bgdata" text)
  then
    match re_search_uvresp text with
    | Some tok => set_captcha_token tok s1
    | None => s1
    end
  else s1.

(** [request_handler]: every exception inside the block is suppressed. *)
Definition request_handler (req : Request) (s : Challenger) : Challenger :=
  if url_wanted (url req) then
    match response req with
    | Ok (Some (Ok text)) => observe_text (url req) text s
    | _ => s
    end
  else s.

(* ================================================================= *)
(** ** The world: page, frames, locators and the detector *)

Definition Image : Type := list Byte.byte.

(** One entry of the trace: a call on a collaborator, a [print], or a write
    by the coroutine to one of the two fields it shares with the observer. *)
Inductive Event : Type :=
| EClick (frame locator : string) (timeout : option Z)
| EWaitFor (frame locator : string) (timeout : Z)
| ETextContent (frame locator : string)
| EAll (frame locator : string)
| EEvaluate (script : string)
| EScreenshot
| EDetect (prompt : string) (area_captcha : bool)
| EMouseClick (x y : Z)
| EWaitForTimeout (ms : Z)
| EPrint (msg : string)
| ESetDynamic (b : bool)
| ESetCaptchaToken (t : string).

(** The answers of the collaborators.  Every awaited call is a suspension
    point, numbered by the instance's [clock]; [w_requests t] are the
    requests whose handler finishes during suspension [t].  [w_detect] is
    [Detector.detect], a synchronous call. *)
Record World : Type := mkWorld {
  w_requests : nat -> list Request;
  w_click : nat -> string -> string -> Res unit;
  w_wait_for : nat -> string -> string -> Res unit;
  w_text_content : nat -> string -> string -> Res (option string);
  w_all : nat -> string -> string -> Res nat;
  w_evaluate : nat -> string -> Res string;
  w_screenshot : nat -> Res Image;
  w_mouse_click : nat -> Z -> Z -> Res unit;
  w_wait_for_timeout : nat -> Z -> Res unit;
  w_detect : string -> Image -> bool -> list bool * list (Z * Z)
}.

(* ================================================================= *)
(** ** The monad of the coroutine *)

Inductive Outcome (A : Type) : Type :=
| Ret (a : A)
| Raise (e : exn)
| OutOfFuel.
Arguments Ret {A} a.
Arguments Raise {A} e.
Arguments OutOfFuel {A}.

Record Run (A : Type) : Type := mkRun {
  outcome : Outcome A;
  final : Challenger;
  trace : list Event
}.
Arguments mkRun {A} outcome final trace.
Arguments outcome {A} r.
Arguments final {A} r.
Arguments trace {A} r.

Definition M (A : Type) : Type := Challenger -> Run A.

Definition ret {A} (a : A) : M A := fun s => mkRun (Ret a) s [].

Definition raise {A} (e : exn) : M A := fun s => mkRun (Raise e) s [].

Definition out_of_fuel {A} : M A := fun s => mkRun OutOfFuel s [].

Definition bind {A B} (m : M A) (k : A -> M B) : M B :=
  fun s =>
    let r := m s in
    match outcome r with
    | Ret a =>
        let r' := k a (final r) in
        mkRun (outcome r') (final r') (trace r ++ trace r')
    | Raise e => mkRun (Raise e) (final r) (trace r)
    | OutOfFuel => mkRun OutOfFuel (final r) (trace r)
    end.

(** [try: m except <p>: h] *)
Definition catch {A} (p : exn -> bool) (m h : M A) : M A :=
  fun s =>
    let r := m s in
    match outcome r with
    | Raise e =>
        if p e then
          let r' := h (final r) in
          mkRun (outcome r') (final r') (trace r ++ trace r')
        else r
    | _ => r
    end.

Definition get : M Challenger := fun s => mkRun (Ret s) s [].

Declare Scope challenger_scope.
Delimit Scope challenger_scope with challenger.
Notation "x <- c1 ;; c2" := (bind c1 (fun x => c2))
  (at level 61, c1 at next level, right associativity) : challenger_scope.
Notation "c1 ;; c2" := (bind c1 (fun _ => c2))
  (at level 61, right associativity) : challenger_scope.
Local Open Scope challenger_scope.

Definition print (msg : string) : M unit :=
  fun s => mkRun (Ret tt) s [EPrint msg].

(** [self.dynamic = b] in the coroutine. *)
Definition assign_dynamic (b : bool) : M unit :=
  fun s => mkRun (Ret tt) (set_dynamic b s) [ESetDynamic b].

(** [self.captcha_token = t] in the coroutine. *)
Definition assign_captcha_token (t : string) : M unit :=
  fun s => mkRun (Ret tt) (set_captcha_token t s) [ESetCaptchaToken t].

(** [self.retried += 1] *)
Definition incr_retried : M unit :=
  fun s => mkRun (Ret tt) (set_retried (retried s + 1) s) [].

(** The handlers that finish during one suspension, in order. *)
Definition observe (reqs : list Request) (s : Challenger) : Challenger :=
  fold_left (fun acc req => request_handler req acc) reqs s.

Section Coroutine.

Variable w : World.

(** One suspension: the observer's pending handlers run and the clock
    moves on. *)
Definition suspend (s : Challenger) : Challenger :=
  set_clock (S (clock s)) (observe (w_requests w (clock s)) s).

(** [await] on a collaborator: the coroutine is suspended, and the call's
    answer comes back or is raised. *)
Definition await {A} (ev : Event) (answer : nat -> Res A) : M A :=
  fun s =>
    mkRun (match answer (clock s) with
           | Ok a => Ret a
           | Err e => Raise e
           end) (suspend s) [ev].

Definition bframe : string := "//iframe[contains(@src,'bframe')]".
Definition checkbox_frame : string := "iframe[title='reCAPTCHA']".
Definition tile_locator : string := "[class='rc-imageselect-tile']".

Definition click (frame locator : string) (timeout : option Z) : M unit :=
  await (EClick frame locator timeout) (fun t => w_click w t frame locator).

Definition wait_for (frame locator : string) (timeout : Z) : M unit :=
  await (EWaitFor frame locator timeout)
        (fun t => w_wait_for w t frame locator).

Definition text_content (frame locator : string) : M (option string) :=
  await (ETextContent frame locator)
        (fun t => w_text_content w t frame locator).

Definition all (frame locator : string) : M nat :=
  await (EAll frame locator) (fun t => w_all w t frame locator).

Definition evaluate (script : string) : M string :=
  await (EEvaluate script) (fun t => w_evaluate w t script).

Definition screenshot : M Image :=
  await EScreenshot (w_screenshot w).

Definition mouse_click (x y : Z) : M unit :=
  await (EMouseClick x y) (fun t => w_mouse_click w t x y).

Definition wait_for_timeout (ms : Z) : M unit :=
  await (EWaitForTimeout ms) (fun t => w_wait_for_timeout w t ms).

(** [detector.detect(prompt, image, area_captcha=...)] *)
Definition detect (prompt : string) (image : Image) (area_captcha : bool)
  : M (list bool * list (Z * Z)) :=
  fun s => mkRun (Ret (w_detect w prompt image area_captcha)) s
                 [EDetect prompt area_captcha].

(* ----------------------------------------------------------------- *)
(** *** [check_result], [check_captcha_visible], [click_checkbox] *)

Definition check_result : M (option string) :=
  catch is_playwright
    (captcha_token <- evaluate "grecaptcha.getResponse()";;
     ret (Some captcha_token))
    (catch is_playwright
       (enterprise_captcha_token <-
          evaluate "grecaptcha.enterprise.getResponse()";;
        ret (Some enterprise_captcha_token))
       (ret None)).

Definition check_captcha_visible : M bool :=
  catch is_timeout
    (wait_for bframe "//strong" 10000;; ret true)
    (ret false).

Definition click_checkbox : M bool :=
  catch is_timeout
    (click checkbox_frame ".recaptcha-checkbox-border" (Some 5000);; ret true)
    (ret false).

(* ----------------------------------------------------------------- *)
(** *** [detect_tiles] and [retry]

    Both re-enter [handle_recaptcha]; it is passed as [rec]. *)

Definition retry (rec : M PyVal) (captcha_frame : string) (verify : bool)
  : M PyVal :=
  incr_retried;;
  s <- get;;
  if retried s >=? retry_times s then raise (RecursionError (retry_times s))
  else
    assign_dynamic false;;
    assign_captcha_token EmptyString;;
    (if verify then click captcha_frame "#recaptcha-verify-button" None
     else
       print "[INFO] Reloading Captcha and Retrying";;
       click captcha_frame "#recaptcha-reload-button" None);;
    rec.

(** The [for] loop over the coordinates (lines 92 to 95). *)
Fixpoint click_coordinates (coordinates : list (Z * Z)) : M unit :=
  match coordinates with
  | [] => ret tt
  | (coord_x, coord_y) :: rest =>
      mouse_click coord_x coord_y;;
      s <- get;;
      match click_timeout s with
      | Some t => if t =? 0 then ret tt else wait_for_timeout t
      | None => ret tt
      end;;
      click_coordinates rest
  end.

Definition detect_tiles (rec : M PyVal) (prompt : string)
    (area_captcha verify : bool) (captcha_frame : string) : M PyVal :=
  image <- screenshot;;
  found <- detect prompt image area_captcha;;
  if negb (existsb (fun b => b) (fst found)) then
    if negb verify then
      print "[ERROR] Detector did not return any Results.";;
      retry rec captcha_frame verify
    else ret (VBool false)
  else
    click_coordinates (snd found);;
    ret (VBool true).

(* ----------------------------------------------------------------- *)
(** *** The blocks of [handle_recaptcha] *)

(** The [except TimeoutError] handler (lines 128 to 133). *)
Definition frame_did_not_load : M PyVal :=
  captcha_token <- check_result;;
  if opt_truthy captcha_token then
    match captcha_token with
    | Some t => ret (VStr t)
    | None => ret (VBool false)
    end
  else
    print "[ERROR] reCaptcha Frame did not load.";;
    ret (VBool false).

(** The [try] block (lines 119 to 125): the prompt. *)
Definition read_prompt : M string :=
  prompt <- text_content bframe "//strong";;
  match prompt with
  | Some p =>
      if str_truthy p then ret p
      else raise (ValueError "reCaptcha Task Text did not load.")
  | None => raise (ValueError "reCaptcha Task Text did not load.")
  end.

(** The [for _ in range(10)] loop (lines 138 to 143), [k] iterations left,
    [n] the length of [recaptcha_tiles]. *)
Fixpoint poll_tiles (k : nat) (n : nat) : M nat :=
  match k with
  | O => ret n
  | S k' =>
      if ((n =? 9) || (n =? 16))%nat then ret n
      else
        wait_for_timeout 1000;;
        n' <- all bframe tile_locator;;
        poll_tiles k' n'
  end.

(** Lines 136 to 143. *)
Definition load_tiles : M nat :=
  n <- all bframe tile_locator;;
  poll_tiles 10 n.

(** The [while not_yet_passed] loop (lines 150 to 152). *)
Fixpoint dynamic_loop (fuel : nat) (rec : M PyVal) (prompt : string)
    (area_captcha : bool) (captcha_frame : string) (not_yet_passed : PyVal)
  : M PyVal :=
  if truthy not_yet_passed then
    match fuel with
    | O => out_of_fuel
    | S fuel' =>
        wait_for_timeout 5000;;
        v <- detect_tiles rec prompt area_captcha true captcha_frame;;
        dynamic_loop fuel' rec prompt area_captcha captcha_frame v
    end
  else ret not_yet_passed.

(** Lines 160 to 165. *)
Definition submit_challenge (captcha_frame : string) : M unit :=
  catch is_timeout
    (click captcha_frame "#recaptcha-verify-button" (Some 5000))
    (visible <- check_captcha_visible;;
     if visible then
       print "[WARNING] Could not submit challenge. Verify Button did not load."
     else ret tt).

(** The [for _ in range(5)] loop (lines 168 to 172): [Some] token to return,
    or [None] when the five polls are used up. *)
Fixpoint wait_for_token (k : nat) : M (option string) :=
  match k with
  | O => ret None
  | S k' =>
      s <- get;;
      if str_truthy (captcha_token s) then ret (Some (captcha_token s))
      else
        captcha_token <- check_result;;
        if opt_truthy captcha_token then ret captcha_token
        else
          wait_for_timeout 1000;;
          wait_for_token k'
  end.

(** Lines 175 to 179. *)
Definition retry_after_wait (rec : M PyVal) : M PyVal :=
  incr_retried;;
  s <- get;;
  if retried s >=? retry_times s then raise (RecursionError (retry_times s))
  else rec.

(** Lines 135 to 179: the cycle once the prompt is read. *)
Definition cycle (fuel : nat) (rec : M PyVal) (prompt : string) : M PyVal :=
  n <- load_tiles;;
  let area_captcha := (n =? 16)%nat in
  not_yet_passed <- detect_tiles rec prompt area_captcha area_captcha bframe;;
  s <- get;;
  not_yet_passed <-
    (if dynamic s && negb area_captcha
     then dynamic_loop fuel rec prompt area_captcha bframe not_yet_passed
     else ret not_yet_passed);;
  if is_str not_yet_passed then ret not_yet_passed
  else
    submit_challenge bframe;;
    captcha_token <- wait_for_token 5;;
    match captcha_token with
    | Some t => ret (VStr t)
    | None => retry_after_wait rec
    end.

Fixpoint handle_recaptcha (fuel : nat) : M PyVal :=
  match fuel with
  | O => out_of_fuel
  | S fuel' =>
      r <- catch is_timeout
             (prompt <- read_prompt;; ret (inl prompt))
             (v <- frame_did_not_load;; ret (inr v));;
      match r with
      | inl prompt => cycle fuel' (handle_recaptcha fuel') prompt
      | inr v => ret v
      end
  end.

Definition solve_recaptcha (fuel : nat) : M PyVal :=
  assign_dynamic false;;
  assign_captcha_token EmptyString;;
  click_checkbox;;
  visible <- check_captcha_visible;;
  if negb visible then
    print "[ERROR] reCaptcha Challenge is not visible.";;
    ret (VBool false)
  else
    wait_for_timeout 2000;;
    handle_recaptcha fuel.

End Coroutine.

(* ================================================================= *)
(** ** Notions the statements use *)

(** Every character of [s] satisfies [p]. *)
Fixpoint string_forallb (p : ascii -> bool) (s : string) : bool :=
  match s with
  | EmptyString => true
  | String c s' => p c && string_forallb p s'
  end.

Definition all_space (s : string) : bool := string_forallb is_space s.

Definition quote_free (s : string) : bool :=
  string_forallb (fun c => negb (Ascii.eqb c dquote)) s.

(** A well-formed labelled token field: the quoted label, white space, a
    comma, white space, and the quoted token. *)
Definition token_field (ws1 ws2 tok : string) : string :=
  uvresp_label ++ ws1 ++ String ","%char
    (ws2 ++ String dquote (tok ++ String dquote EmptyString)).

(** The tile counts the grid polling looks at, out of the counts [cs] the
    page would give one after the other: it stops behind a 9 or a 16, and
    after [k] polls that follow the first look. *)
Fixpoint observed (k : nat) (cs : list nat) {struct cs} : list nat :=
  match cs with
  | [] => []
  | c :: cs' =>
      c :: (if ((c =? 9) || (c =? 16))%nat then []
            else match k with
                 | O => []
                 | S k' => observed k' cs'
                 end)
  end.

(** The counts the page gives at the suspension points of the polling that
    starts at clock [t]: every other one, the waits lie in between. *)
Definition offered (w : World) (t : nat) (i : nat) : Res nat :=
  w_all w (t + 2 * i)%nat bframe tile_locator.

Definition is_reset_token (ev : Event) : bool :=
  match ev with
  | ESetCaptchaToken EmptyString => true
  | _ => false
  end.

Definition is_reset_dynamic (ev : Event) : bool :=
  match ev with
  | ESetDynamic false => true
  | _ => false
  end.

(** A write of the coroutine to [dynamic] or [captcha_token]. *)
Definition is_field_write (ev : Event) : bool :=
  match ev with
  | ESetDynamic _ | ESetCaptchaToken _ => true
  | _ => false
  end.

(** A click on the control [locator]. *)
Definition is_click_on (locator : string) (ev : Event) : bool :=
  match ev with
  | EClick _ l _ => String.eqb l locator
  | _ => false
  end.

Definition is_all (ev : Event) : bool :=
  match ev with
  | EAll _ _ => true
  | _ => false
  end.

Definition is_text_content (ev : Event) : bool :=
  match ev with
  | ETextContent _ _ => true
  | _ => false
  end.

Definition is_evaluate (script : string) (ev : Event) : bool :=
  match ev with
  | EEvaluate sc => String.eqb sc script
  | _ => false
  end.

Definition count (p : Event -> bool) (tr : list Event) : nat :=
  List.length (filter p tr).

(** The call hit the retry limit: [retried] was incremented up to or past
    [retry_times]. *)
Definition limit_reached {A} (s : Challenger) (r : Run A) : Prop :=
  retried s < retried (final r) /\ retry_times s <= retried (final r).

(** The failed cycles of a call: each one increments [retried] once. *)
Definition failed_cycles {A} (s : Challenger) (r : Run A) : Z :=
  retried (final r) - retried s.

(** How [retried] moves in a run started at [s]: [retry_times] stays; then
    either the counter did not go down and is unchanged or still below the
    limit, or the run ended in the retry-limit error, raised by the increment
    that took the counter to the limit (or past it, when it started there). *)
Definition retry_inv {A} (s : Challenger) (r : Run A) : Prop :=
  retry_times (final r) = retry_times s
  /\ ((retried s <= retried (final r)
       /\ (retried (final r) = retried s
           \/ retried (final r) < retry_times s))
      \/ (outcome r = Raise (RecursionError (retry_times s))
          /\ retried s < retried (final r)
          /\ retried (final r) = Z.max (retry_times s) (retried s + 1))).

(** The resets of the two shared fields in a trace are as many as the
    clicks on the reload button. *)
Definition resets_match_reloads {A} (s : Challenger) (r : Run A) : Prop :=
  count is_reset_dynamic (trace r)
  = count (is_click_on "#recaptcha-reload-button") (trace r)
  /\ count is_reset_token (trace r)
     = count (is_click_on "#recaptcha-reload-button") (trace r)
  /\ count is_field_write (trace r)
     = (2 * count (is_click_on "#recaptcha-reload-button") (trace r))%nat.

(** [r] is a value or an exception of class [p]. *)
Definition ok_or {A} (p : exn -> bool) (r : Res A) : bool :=
  match r with
  | Ok _ => true
  | Err e => p e
  end.

Definition never (e : exn) : bool := false.

(** A world whose collaborators fail only the way the code provides for: a
    timeout of the checkbox click, of the submit click, of the wait for the
    label and of the prompt read, and any Playwright error of [evaluate]. *)
Record calm (w : World) : Prop := {
  calm_click : forall t f l,
    ok_or (fun e => is_timeout e
                    && negb (String.eqb l "#recaptcha-reload-button"))
          (w_click w t f l) = true;
  calm_wait_for : forall t f l, ok_or is_timeout (w_wait_for w t f l) = true;
  calm_text_content : forall t f l,
    ok_or is_timeout (w_text_content w t f l) = true;
  calm_all : forall t f l, ok_or never (w_all w t f l) = true;
  calm_evaluate : forall t sc, ok_or is_playwright (w_evaluate w t sc) = true;
  calm_screenshot : forall t, ok_or never (w_screenshot w t) = true;
  calm_mouse_click : forall t x y, ok_or never (w_mouse_click w t x y) = true;
  calm_wait_for_timeout : forall t ms,
    ok_or never (w_wait_for_timeout w t ms) = true
}.

(** What [solve_recaptcha] may end in: a non-empty token, [False], the
    retry-limit error, or the [ValueError] of the missing prompt. *)
Definition solve_outcome (limit : Z) (o : Outcome PyVal) : Prop :=
  match o with
  | Ret (VStr t) => str_truthy t = true
  | Ret (VBool b) => b = false
  | Raise e =>
      e = RecursionError limit
      \/ e = ValueError "reCaptcha Task Text did not load."
  | OutOfFuel => True
  end.

(* ================================================================= *)
(** ** Scenario worlds *)

Module Scenario.

Definition google : string := "https://www.google.com/recaptcha/api2/".

(** The body of a successful verification: the token field in a list. *)
Definition success_body : string :=
  ")]}'[" ++ token_field EmptyString EmptyString "TOKEN" ++ ",1,120]".

Definition userverify_success : Request :=
  mkRequest (google ++ "userverify?k=6L") (Ok (Some (Ok success_body))).

Definition reload_dynamic : Request :=
  mkRequest (google ++ "reload?k=6L")
            (Ok (Some (Ok ")]}'[rresp,03A,null,120,dynamic]"))).

(** A detector that finds something exactly on a non-empty screenshot. *)
Definition detect_nonempty (prompt : string) (image : Image)
    (area_captcha : bool) : list bool * list (Z * Z) :=
  match image with
  | [] => ([false; false], [])
  | _ :: _ => ([false; true], [(120, 240)])
  end.

Definition one_byte : Image := [Byte.x01].

(** The page shows a nine-tile challenge with the prompt cars, every call
    succeeds, the detector finds a tile, and no token ever comes. *)
Definition stubborn : World :=
  mkWorld (fun _ => [])
          (fun _ _ _ => Ok tt) (fun _ _ _ => Ok tt)
          (fun _ _ _ => Ok (Some "cars")) (fun _ _ _ => Ok 9%nat)
          (fun _ _ => Ok EmptyString) (fun _ => Ok one_byte)
          (fun _ _ _ => Ok tt) (fun _ _ => Ok tt)
          detect_nonempty.

(** As [stubborn], but the detector finds nothing. *)
Definition blind : World :=
  mkWorld (fun _ => [])
          (fun _ _ _ => Ok tt) (fun _ _ _ => Ok tt)
          (fun _ _ _ => Ok (Some "cars")) (fun _ _ _ => Ok 9%nat)
          (fun _ _ => Ok EmptyString) (fun _ => Ok [])
          (fun _ _ _ => Ok tt) (fun _ _ => Ok tt)
          detect_nonempty.

(** As [stubborn], but the page's accessor has the token. *)
Definition solved : World :=
  mkWorld (fun _ => [])
          (fun _ _ _ => Ok tt) (fun _ _ _ => Ok tt)
          (fun _ _ _ => Ok (Some "cars")) (fun _ _ _ => Ok 9%nat)
          (fun _ _ => Ok "TOKEN") (fun _ => Ok one_byte)
          (fun _ _ _ => Ok tt) (fun _ _ => Ok tt)
          detect_nonempty.

(** The prompt resolves to the empty string. *)
Definition no_prompt : World :=
  mkWorld (fun _ => [])
          (fun _ _ _ => Ok tt) (fun _ _ _ => Ok tt)
          (fun _ _ _ => Ok (Some EmptyString)) (fun _ _ _ => Ok 9%nat)
          (fun _ _ => Ok EmptyString) (fun _ => Ok one_byte)
          (fun _ _ _ => Ok tt) (fun _ _ => Ok tt)
          detect_nonempty.

(** A sixteen-tile challenge whose reload response, seen during the settle
    delay, says dynamic; no token comes, and on the second cycle the label
    does not resolve. *)
Definition area_then_gone : World :=
  mkWorld (fun t => if (t =? 2)%nat then [reload_dynamic] else [])
          (fun _ _ _ => Ok tt) (fun _ _ _ => Ok tt)
          (fun t _ _ => if (t <=? 3)%nat then Ok (Some "cars")
                        else Err TimeoutError)
          (fun _ _ _ => Ok 16%nat)
          (fun _ _ => Ok EmptyString) (fun _ => Ok one_byte)
          (fun _ _ _ => Ok tt) (fun _ _ => Ok tt)
          detect_nonempty.

(** The observer captures the token while the first screenshot, [image],
    is taken; after a reload the label does not resolve and the page has no
    accessor. *)
Definition captured_during_screenshot (image : Image) : World :=
  mkWorld (fun t => if (t =? 5)%nat then [userverify_success] else [])
          (fun _ _ _ => Ok tt) (fun _ _ _ => Ok tt)
          (fun t _ _ => if (t <=? 3)%nat then Ok (Some "cars")
                        else Err TimeoutError)
          (fun _ _ _ => Ok 9%nat)
          (fun _ _ => Err PlaywrightError) (fun _ => Ok image)
          (fun _ _ _ => Ok tt) (fun _ _ => Ok tt)
          detect_nonempty.

(** The observer captures the token during the settle delay, then the label
    does not resolve and the page has no accessor. *)
Definition captured_then_gone : World :=
  mkWorld (fun t => if (t =? 2)%nat then [userverify_success] else [])
          (fun _ _ _ => Ok tt) (fun _ _ _ => Ok tt)
          (fun _ _ _ => Err TimeoutError)
          (fun _ _ _ => Ok 9%nat)
          (fun _ _ => Err PlaywrightError) (fun _ => Ok one_byte)
          (fun _ _ _ => Ok tt) (fun _ _ => Ok tt)
          detect_nonempty.

(** The tile counts 0, 4, 16 one after the other, then 9. *)
Definition slow_grid : World :=
  mkWorld (fun _ => [])
          (fun _ _ _ => Ok tt) (fun _ _ _ => Ok tt)
          (fun _ _ _ => Ok (Some "cars"))
          (fun t _ _ => Ok (nth (Nat.div2 t) [0; 4; 16] 9)%nat)
          (fun _ _ => Ok "TOKEN") (fun _ => Ok one_byte)
          (fun _ _ _ => Ok tt) (fun _ _ => Ok tt)
          detect_nonempty.

(** An instance whose observer has seen a dynamic challenge and captured a
    token. *)
Definition holding_token : Challenger :=
  mkChallenger None 15 0 true "TOKEN" 0.

End Scenario.

(** A property [I] of runs, relative to the state they start in, holds of
    every run of [m]. *)
Definition sat (I : forall A : Type, Challenger -> Run A -> Prop)
    {A : Type} (m : M A) : Prop :=
  forall s, I A s (m s).

(** [solve_recaptcha] after its two resets (lines 194 to 200). *)
Definition open_challenge (w : World) (fuel : nat) : M PyVal :=
  (click_checkbox w;;
   visible <- check_captcha_visible w;;
   if negb visible then
     print "[ERROR] reCaptcha Challenge is not visible.";;
     ret (VBool false)
   else
     wait_for_timeout w 2000;;
     handle_recaptcha w fuel)%challenger.

(** [retried] and [retry_times] are the same after the run. *)
Definition counter_untouched {A} (s : Challenger) (r : Run A) : Prop :=
  retried (final r) = retried s /\ retry_times (final r) = retry_times s.

(** A run started at [s] keeps [retry_times] and ends in a value of [okv],
    in an exception of [oke] (which may name [retry_times]), or out of
    fuel. *)
Definition ends_in {A} (okv : A -> Prop) (oke : Z -> exn -> Prop)
    (s : Challenger) (r : Run A) : Prop :=
  retry_times (final r) = retry_times s
  /\ match outcome r with
     | Ret a => okv a
     | Raise e => oke (retry_times s) e
     | OutOfFuel => True
     end.

Definition any_value {A} (a : A) : Prop := True.

Definition no_exn (limit : Z) (e : exn) : Prop := False.

Definition raised_by (p : exn -> bool) (limit : Z) (e : exn) : Prop :=
  p e = true.

(** The two exceptions the coroutine raises itself. *)
Definition fatal (limit : Z) (e : exn) : Prop :=
  e = RecursionError limit
  \/ e = ValueError "reCaptcha Task Text did not load.".

Definition fatal_or_timeout (limit : Z) (e : exn) : Prop :=
  fatal limit e \/ e = TimeoutError.

(** A string result is a non-empty token. *)
Definition token_or_bool (v : PyVal) : Prop :=
  match v with
  | VStr t => str_truthy t = true
  | VBool _ => True
  end.

(** A non-empty token or [False]. *)
Definition token_or_false (v : PyVal) : Prop :=
  match v with
  | VStr t => str_truthy t = true
  | VBool b => b = false
  end.

Definition token_or_none (o : option string) : Prop :=
  match o with
  | Some t => str_truthy t = true
  | None => True
  end.

(** The increments [retried] can still take before the limit. *)
Definition retries_left (s : Challenger) : nat :=
  Z.to_nat (retry_times s - retried s).

(** The observer never sees a dynamic challenge: no handler sets
    [dynamic]. *)
Definition never_dynamic (w : World) : Prop :=
  forall t s, dynamic s = false ->
              dynamic (observe (w_requests w t) s) = false.

(** A run started with [dynamic] unset and at most [n] retries left does
    not run out of fuel and ends the same way. *)
Definition steady (n : nat) {A} (s : Challenger) (r : Run A) : Prop :=
  dynamic s = false -> (retries_left s <= n)%nat ->
  outcome r <> OutOfFuel
  /\ dynamic (final r) = false
  /\ (retries_left (final r) <= n)%nat.

(* ----------------------------------------------------------------- *)
(** *** Further notions *)

(** A pause of [ms] milliseconds. *)
Definition is_wait_for_timeout (ms : Z) (ev : Event) : bool :=
  match ev with
  | EWaitForTimeout t => t =? ms
  | _ => false
  end.

Definition is_mouse_click (ev : Event) : bool :=
  match ev with
  | EMouseClick _ _ => true
  | _ => false
  end.

(** The pause after a tile click: [click_timeout], when it is set and not
    zero. *)
Definition click_pause (timeout : option Z) : list Event :=
  match timeout with
  | Some t => if t =? 0 then [] else [EWaitForTimeout t]
  | None => []
  end.

(** The clicks on the coordinates, in order, each with its pause. *)
Fixpoint click_events (timeout : option Z) (coordinates : list (Z * Z))
  : list Event :=
  match coordinates with
  | [] => []
  | (x, y) :: rest =>
      (EMouseClick x y :: click_pause timeout)
      ++ click_events timeout rest
  end.

(** The configuration of the instance is the same after the run. *)
Definition config_kept {A} (s : Challenger) (r : Run A) : Prop :=
  click_timeout (final r) = click_timeout s
  /\ retry_times (final r) = retry_times s.

(** Every click on the reload button is paid for by an increment of
    [retried], and the increment that reaches the limit pays for none. *)
Definition reloads_paid {A} (s : Challenger) (r : Run A) : Prop :=
  retry_times (final r) = retry_times s
  /\ retried s <= retried (final r)
  /\ Z.of_nat (count (is_click_on "#recaptcha-reload-button") (trace r))
     <= retried (final r) - retried s
  /\ (limit_reached s r ->
      Z.of_nat (count (is_click_on "#recaptcha-reload-button") (trace r)) + 1
      <= retried (final r) - retried s).

(** The instance as [solve_recaptcha] hands it to the first cycle of world
    [w]: after the resets, the checkbox click, the wait for the label and the
    settle delay. *)
Definition suspend_probe (w : World) : Run unit :=
  (assign_dynamic false;;
   assign_captcha_token EmptyString;;
   click_checkbox w;;
   check_captcha_visible w;;
   wait_for_timeout w 2000)%challenger (init None 15).

(* ----------------------------------------------------------------- *)
(** *** The end of the cycle, and the failures that lead to a reload *)

(** Lines 154 to 179 of [handle_recaptcha], the part of [cycle] that follows
    the loop of the dynamic challenge: the same terms as in [cycle]. *)
Definition finish_cycle (w : World) (rec : M PyVal) (not_yet_passed : PyVal)
  : M PyVal :=
  (if is_str not_yet_passed then ret not_yet_passed
   else
     submit_challenge w bframe;;
     captcha_token <- wait_for_token w 5;;
     match captcha_token with
     | Some t => ret (VStr t)
     | None => retry_after_wait rec
     end)%challenger.

Definition is_print (msg : string) (ev : Event) : bool :=
  match ev with
  | EPrint m => String.eqb m msg
  | _ => false
  end.

(** The message of [detect_tiles] before it retries. *)
Definition detector_failed : string :=
  "[ERROR] Detector did not return any Results.".

(** The clicks on the reload button are at most as many as the failures the
    detector reported. *)
Definition reloads_follow_failures {A} (s : Challenger) (r : Run A) : Prop :=
  (count (is_click_on "#recaptcha-reload-button") (trace r)
   <= count (is_print detector_failed) (trace r))%nat.

(** A nine-tile challenge that the reload response, seen during the settle
    delay, announces as dynamic: the detector finds a tile on the first
    screenshot and nothing on the later ones, and the page's accessor has
    the token. *)
Definition dynamic_nine_tiles : World :=
  mkWorld (fun t => if (t =? 2)%nat then [Scenario.reload_dynamic] else [])
          (fun _ _ _ => Ok tt) (fun _ _ _ => Ok tt)
          (fun _ _ _ => Ok (Some "cars")) (fun _ _ _ => Ok 9%nat)
          (fun _ _ => Ok "TOKEN")
          (fun t => if (t <=? 5)%nat then Ok Scenario.one_byte else Ok [])
          (fun _ _ _ => Ok tt) (fun _ _ => Ok tt)
          Scenario.detect_nonempty.

(* ================================================================= *)
(** * Properties *)

(* ----------------------------------------------------------------- *)
(** ** Strings and the token pattern *)

Lemma string_app_assoc (a b c : string) : (a ++ b) ++ c = a ++ (b ++ c).
Proof.
  induction a as [|x a IH]; simpl; [reflexivity | now rewrite IH].
Qed.

Lemma strip_prefix_app (p r : string) : strip_prefix p (p ++ r) = Some r.
Proof.
  induction p as [|a p IH]; simpl; [reflexivity|].
  now rewrite Ascii.eqb_refl.
Qed.

Lemma skip_space_app (ws : string) (c : ascii) (r : string) :
  all_space ws = true -> is_space c = false ->
  skip_space (ws ++ String c r) = String c r.
Proof.
  intros Hws Hc. induction ws as [|x ws IH]; simpl.
  - now rewrite Hc.
  - simpl in Hws. apply andb_true_iff in Hws as [Hx Hws].
    rewrite Hx. now apply IH.
Qed.

Lemma span_nonquote_app (tok r : string) :
  quote_free tok = true ->
  span_nonquote (tok ++ String dquote r) = (tok, String dquote r).
Proof.
  intros Htok. induction tok as [|x tok IH]; simpl.
  - reflexivity.
  - simpl in Htok. apply andb_true_iff in Htok as [Hx Htok].
    apply negb_true_iff in Hx. rewrite Hx, (IH Htok). reflexivity.
Qed.

(** The pattern matches at the head of a well-formed field and captures its
    token. *)
Lemma match_uvresp_here_field (ws1 ws2 tok post : string) :
  all_space ws1 = true -> all_space ws2 = true ->
  quote_free tok = true -> str_truthy tok = true ->
  match_uvresp_here (token_field ws1 ws2 tok ++ post) = Some tok.
Proof.
  intros H1 H2 Hq Ht. unfold match_uvresp_here, token_field.
  rewrite string_app_assoc, strip_prefix_app.
  rewrite string_app_assoc. simpl.
  rewrite (skip_space_app ws1 ","%char _ H1 eq_refl). simpl.
  rewrite string_app_assoc. simpl.
  rewrite (skip_space_app ws2 dquote _ H2 eq_refl). simpl.
  rewrite string_app_assoc. simpl.
  rewrite (span_nonquote_app tok post Hq).
  destruct tok; [discriminate | reflexivity].
Qed.

(** No match starts at a character other than the double quote. *)
Lemma match_uvresp_here_head (c : ascii) (s : string) :
  Ascii.eqb c dquote = false -> match_uvresp_here (String c s) = None.
Proof.
  intros Hc. unfold match_uvresp_here, uvresp_label.
  cbn [strip_prefix]. rewrite Ascii.eqb_sym, Hc. reflexivity.
Qed.

Lemma re_search_uvresp_here (s tok : string) :
  match_uvresp_here s = Some tok -> re_search_uvresp s = Some tok.
Proof.
  intros H. destruct s; cbn [re_search_uvresp]; now rewrite H.
Qed.

(** [re.search] finds the first well-formed field of a body that has no
    double quote before it. *)
Lemma re_search_uvresp_field (pre ws1 ws2 tok post : string) :
  quote_free pre = true ->
  all_space ws1 = true -> all_space ws2 = true ->
  quote_free tok = true -> str_truthy tok = true ->
  re_search_uvresp (pre ++ token_field ws1 ws2 tok ++ post) = Some tok.
Proof.
  intros Hpre H1 H2 Hq Ht. induction pre as [|c pre IH].
  - apply re_search_uvresp_here.
    now apply match_uvresp_here_field.
  - simpl in Hpre. apply andb_true_iff in Hpre as [Hc Hpre].
    apply negb_true_iff in Hc.
    change ((String c pre) ++ token_field ws1 ws2 tok ++ post)
      with (String c (pre ++ token_field ws1 ws2 tok ++ post)).
    cbn [re_search_uvresp]. rewrite (match_uvresp_here_head _ _ Hc).
    now apply IH.
Qed.

(** What a match captures is never empty and has no double quote. *)
Lemma span_nonquote_quote_free (s : string) :
  quote_free (fst (span_nonquote s)) = true.
Proof.
  induction s as [|c s IH]; cbn [span_nonquote]; [reflexivity|].
  destruct (Ascii.eqb c dquote) eqn:Hc; [reflexivity|].
  destruct (span_nonquote s) as [run rest]. cbn [fst] in *.
  unfold quote_free in *. cbn [string_forallb].
  rewrite Hc, IH. reflexivity.
Qed.

Lemma match_uvresp_here_token (s tok : string) :
  match_uvresp_here s = Some tok ->
  str_truthy tok = true /\ quote_free tok = true.
Proof.
  unfold match_uvresp_here.
  destruct (strip_prefix uvresp_label s) as [r1|]; [|discriminate].
  destruct (skip_space r1) as [|c r2]; [discriminate|].
  destruct (Ascii.eqb c ","%char); [|discriminate].
  destruct (skip_space r2) as [|q r3]; [discriminate|].
  destruct (Ascii.eqb q dquote); [|discriminate].
  pose proof (span_nonquote_quote_free r3) as Hq.
  destruct (span_nonquote r3) as [[|t ts] [|x rest]]; try discriminate.
  intros H. injection H as <-. split; [reflexivity | exact Hq].
Qed.

Lemma re_search_uvresp_token (s tok : string) :
  re_search_uvresp s = Some tok ->
  str_truthy tok = true /\ quote_free tok = true.
Proof.
  induction s as [|c s IH]; cbn [re_search_uvresp].
  - destruct (match_uvresp_here EmptyString) eqn:E; [|discriminate].
    intros H. injection H as <-. exact (match_uvresp_here_token _ _ E).
  - destruct (match_uvresp_here (String c s)) eqn:E.
    + intros H. injection H as <-. exact (match_uvresp_here_token _ _ E).
    + exact IH.
Qed.

(* ----------------------------------------------------------------- *)
(** ** The network observer *)

Lemma captcha_token_set_dynamic (b : bool) (s : Challenger) :
  captcha_token (set_dynamic b s) = captcha_token s.
Proof. reflexivity. Qed.

(** C5.  For a request the observer looks at whose URL names the
    verification endpoint and whose response text is [body]: when [body] has
    neither continuation marker, [captcha_token] becomes group 1 of the
    pattern's match, which for a body with a well-formed labelled token field
    (and no double quote before it) is that field's token; when [body] has a
    continuation marker, [captcha_token] is left as it was. *)
Theorem request_handler_userverify
    (req : Request) (body : string) (s : Challenger)
    (Hwanted : url_wanted (url req) = true)
    (Hverify : contains "userverify" (url req) = true)
    (Hbody : response req = Ok (Some (Ok body))) :
  (contains "rresp" body = false -> contains "bgdata" body = false ->
   (forall tok, re_search_uvresp body = Some tok ->
                captcha_token (request_handler req s) = tok)
   /\ (forall pre ws1 ws2 tok post,
         body = pre ++ token_field ws1 ws2 tok ++ post ->
         quote_free pre = true ->
         all_space ws1 = true -> all_space ws2 = true ->
         quote_free tok = true -> str_truthy tok = true ->
         captcha_token (request_handler req s) = tok))
  /\ (contains "rresp" body = true \/ contains "bgdata" body = true ->
      captcha_token (request_handler req s) = captcha_token s).
Proof.
  unfold request_handler. rewrite Hwanted, Hbody.
  unfold observe_text. rewrite Hverify. split.
  - intros Hr Hb. rewrite Hr, Hb. cbn [negb andb].
    assert (Hsearch : forall tok, re_search_uvresp body = Some tok ->
              captcha_token
                match re_search_uvresp body with
                | Some tok0 =>
                    set_captcha_token tok0
                      (set_dynamic (contains "dynamic" body) s)
                | None => set_dynamic (contains "dynamic" body) s
                end = tok).
    { intros tok Htok. rewrite Htok. reflexivity. }
    split; [exact Hsearch|].
    intros pre ws1 ws2 tok post -> Hpre H1 H2 Hq Ht.
    apply Hsearch. now apply re_search_uvresp_field.
  - intros [Hm | Hm]; rewrite Hm; cbn [negb andb];
      [|rewrite andb_false_r]; apply captcha_token_set_dynamic.
Qed.

Lemma request_handler_userverify_witness :
  url_wanted (url Scenario.userverify_success) = true
  /\ contains "userverify" (url Scenario.userverify_success) = true
  /\ response Scenario.userverify_success
     = Ok (Some (Ok Scenario.success_body))
  /\ contains "rresp" Scenario.success_body = false
  /\ contains "bgdata" Scenario.success_body = false
  /\ captcha_token
       (request_handler Scenario.userverify_success (init None 15))
     = "TOKEN".
Proof.
  repeat (split; [reflexivity|]).
  apply (proj1 (request_handler_userverify
                  Scenario.userverify_success Scenario.success_body
                  (init None 15) eq_refl eq_refl eq_refl)
               eq_refl eq_refl).
  reflexivity.
Defined.

(* ----------------------------------------------------------------- *)
(** ** [check_result] *)

(** C10.  [check_result] returns the value of the standard accessor as soon
    as its evaluation succeeds, the empty string included, and then does not
    evaluate the enterprise accessor; it evaluates the enterprise accessor
    exactly when the standard evaluation raised a Playwright error, and
    returns [None] when that one raises a Playwright error too. *)
Theorem check_result_spec (w : World) (s : Challenger) :
  let r := check_result w s in
  match w_evaluate w (clock s) "grecaptcha.getResponse()" with
  | Ok v =>
      outcome r = Ret (Some v)
      /\ trace r = [EEvaluate "grecaptcha.getResponse()"]
  | Err e =>
      if is_playwright e then
        trace r = [EEvaluate "grecaptcha.getResponse()";
                   EEvaluate "grecaptcha.enterprise.getResponse()"]
        /\ match w_evaluate w (S (clock s))
                            "grecaptcha.enterprise.getResponse()" with
           | Ok v' => outcome r = Ret (Some v')
           | Err e' =>
               if is_playwright e' then outcome r = Ret None
               else outcome r = Raise e'
           end
      else
        outcome r = Raise e
        /\ trace r = [EEvaluate "grecaptcha.getResponse()"]
  end.
Proof.
  unfold check_result, catch, bind, evaluate, await, ret. cbn.
  destruct (w_evaluate w (clock s) "grecaptcha.getResponse()") as [v|e]; cbn.
  - split; reflexivity.
  - destruct (is_playwright e) eqn:He; cbn.
    + destruct (w_evaluate w (S (clock s))
                  "grecaptcha.enterprise.getResponse()") as [v'|e']; cbn.
      * split; reflexivity.
      * destruct (is_playwright e') eqn:He'; cbn; split; reflexivity.
    + split; reflexivity.
Qed.

(* ----------------------------------------------------------------- *)
(** ** Runs *)

Lemma run_eta {A} (r : Run A) : mkRun (outcome r) (final r) (trace r) = r.
Proof. now destruct r. Qed.

Lemma solve_recaptcha_unfold (w : World) (fuel : nat) :
  solve_recaptcha w fuel
  = bind (assign_dynamic false)
         (fun _ => bind (assign_captcha_token EmptyString)
                        (fun _ => open_challenge w fuel)).
Proof. reflexivity. Qed.

Lemma request_handler_frame (req : Request) (s : Challenger) :
  retried (request_handler req s) = retried s
  /\ retry_times (request_handler req s) = retry_times s
  /\ click_timeout (request_handler req s) = click_timeout s
  /\ clock (request_handler req s) = clock s.
Proof.
  unfold request_handler, observe_text.
  destruct (url_wanted (url req)); [|auto].
  destruct (response req) as [[[text|e]|]|e]; auto.
  destruct (_ && _); [destruct (re_search_uvresp text)|]; auto.
Qed.

Lemma observe_frame (reqs : list Request) (s : Challenger) :
  retried (observe reqs s) = retried s
  /\ retry_times (observe reqs s) = retry_times s
  /\ click_timeout (observe reqs s) = click_timeout s
  /\ clock (observe reqs s) = clock s.
Proof.
  revert s. induction reqs as [|req reqs IH]; intros s; [now cbn|].
  cbn [observe fold_left]. fold (observe reqs (request_handler req s)).
  destruct (IH (request_handler req s)) as (-> & -> & -> & ->).
  apply request_handler_frame.
Qed.

Lemma suspend_frame (w : World) (s : Challenger) :
  retried (suspend w s) = retried s
  /\ retry_times (suspend w s) = retry_times s
  /\ click_timeout (suspend w s) = click_timeout s
  /\ clock (suspend w s) = S (clock s).
Proof.
  unfold suspend. cbn.
  destruct (observe_frame (w_requests w (clock s)) s) as (-> & -> & -> & _).
  auto.
Qed.

(** The shape of a run of [bind]. *)
Lemma bind_ret_run {A B} (m : M A) (k : A -> M B) (s : Challenger) (a : A) :
  outcome (m s) = Ret a ->
  bind m k s = mkRun (outcome (k a (final (m s))))
                     (final (k a (final (m s))))
                     (trace (m s) ++ trace (k a (final (m s)))).
Proof. intros H. unfold bind. now rewrite H. Qed.

Lemma bind_raise_run {A B} (m : M A) (k : A -> M B) (s : Challenger)
    (e : exn) :
  outcome (m s) = Raise e ->
  bind m k s = mkRun (Raise e) (final (m s)) (trace (m s)).
Proof. intros H. unfold bind. now rewrite H. Qed.

Lemma bind_await_ok {A B} (w : World) (ev : Event) (answer : nat -> Res A)
    (k : A -> M B) (s : Challenger) (a : A) :
  answer (clock s) = Ok a ->
  bind (await w ev answer) k s
  = mkRun (outcome (k a (suspend w s))) (final (k a (suspend w s)))
          (ev :: trace (k a (suspend w s))).
Proof. intros H. unfold bind, await. cbn. now rewrite H. Qed.

Lemma bind_await_err {A B} (w : World) (ev : Event) (answer : nat -> Res A)
    (k : A -> M B) (s : Challenger) (e : exn) :
  answer (clock s) = Err e ->
  bind (await w ev answer) k s = mkRun (Raise e) (suspend w s) [ev].
Proof. intros H. unfold bind, await. cbn. now rewrite H. Qed.

Lemma count_app (p : Event -> bool) (t1 t2 : list Event) :
  count p (t1 ++ t2) = (count p t1 + count p t2)%nat.
Proof. unfold count. now rewrite filter_app, length_app. Qed.

Lemma count_cons (p : Event -> bool) (ev : Event) (tr : list Event) :
  count p (ev :: tr) = ((if p ev then 1 else 0) + count p tr)%nat.
Proof. unfold count. cbn. now destruct (p ev). Qed.

(* ----------------------------------------------------------------- *)
(** ** Invariants of a whole cycle

    A property of runs that the constructs of the monad preserve, that holds
    of every awaited call other than the click on the reload button, and
    that the two retry transitions carry over from the cycle they re-enter,
    holds of [handle_recaptcha]. *)

Section Invariant.

Variable w : World.
Variable I : forall A : Type, Challenger -> Run A -> Prop.

Hypothesis I_ret : forall A (a : A), sat I (ret a).
Hypothesis I_bind : forall A B (m : M A) (k : A -> M B),
  sat I m -> (forall a, sat I (k a)) -> sat I (bind m k).
Hypothesis I_catch : forall A (p : exn -> bool) (m h : M A),
  (forall n, p (RecursionError n) = false) ->
  sat I m -> sat I h -> sat I (catch p m h).
Hypothesis I_await : forall A (ev : Event) (answer : nat -> Res A),
  is_click_on "#recaptcha-reload-button" ev = false ->
  is_field_write ev = false ->
  sat I (await w ev answer).
Hypothesis I_get : sat I get.
Hypothesis I_print : forall msg, sat I (print msg).
Hypothesis I_detect : forall prompt image area,
  sat I (detect w prompt image area).
Hypothesis I_out_of_fuel : forall A, sat I (@out_of_fuel A).
Hypothesis I_value_error : forall A msg, sat I (@raise A (ValueError msg)).
Hypothesis I_retry : forall rec frame,
  sat I rec -> sat I (retry w rec frame false).
Hypothesis I_retry_after_wait : forall rec,
  sat I rec -> sat I (retry_after_wait rec).

Ltac sat_leaf :=
  first
    [ apply I_ret
    | apply I_get
    | apply I_print
    | apply I_detect
    | apply I_out_of_fuel
    | apply I_value_error
    | apply I_await; reflexivity ].

(** [m;; k] with [m] a leaf: go on with [k]. *)
Ltac sat_seq := apply I_bind; [sat_leaf | intros ?].

Ltac sat_catch := apply I_catch; [intros ?; reflexivity| |].

Lemma sat_check_result : sat I (check_result w).
Proof.
  unfold check_result, evaluate.
  sat_catch; [sat_seq; sat_leaf|].
  sat_catch; [sat_seq; sat_leaf | sat_leaf].
Qed.

Lemma sat_check_captcha_visible : sat I (check_captcha_visible w).
Proof.
  unfold check_captcha_visible, wait_for.
  sat_catch; [sat_seq; sat_leaf | sat_leaf].
Qed.

Lemma sat_click_checkbox : sat I (click_checkbox w).
Proof.
  unfold click_checkbox, click.
  sat_catch; [sat_seq; sat_leaf | sat_leaf].
Qed.

Lemma sat_click_coordinates (coordinates : list (Z * Z)) :
  sat I (click_coordinates w coordinates).
Proof.
  induction coordinates as [|[x y] rest IH]; cbn [click_coordinates].
  - sat_leaf.
  - unfold mouse_click, wait_for_timeout. sat_seq. sat_seq.
    apply I_bind; [|intros _; exact IH].
    destruct (click_timeout a0) as [t|]; [destruct (t =? 0)|]; sat_leaf.
Qed.

Lemma sat_detect_tiles (rec : M PyVal) (prompt : string)
    (area_captcha verify : bool) (frame : string) :
  sat I rec -> sat I (detect_tiles w rec prompt area_captcha verify frame).
Proof.
  intros Hrec. unfold detect_tiles, screenshot. sat_seq. sat_seq.
  destruct (negb (existsb (fun b => b) (fst a0))).
  - destruct verify; cbn [negb].
    + sat_leaf.
    + sat_seq. now apply I_retry.
  - apply I_bind; [apply sat_click_coordinates | intros _; sat_leaf].
Qed.

Lemma sat_frame_did_not_load : sat I (frame_did_not_load w).
Proof.
  unfold frame_did_not_load. apply I_bind; [apply sat_check_result|].
  intros [t|]; cbn [opt_truthy]; [destruct (str_truthy t)|];
    try sat_leaf; sat_seq; sat_leaf.
Qed.

Lemma sat_read_prompt : sat I (read_prompt w).
Proof.
  unfold read_prompt, text_content. sat_seq.
  destruct a as [p|]; [destruct (str_truthy p)|]; sat_leaf.
Qed.

Lemma sat_poll_tiles (k n : nat) : sat I (poll_tiles w k n).
Proof.
  revert n. induction k as [|k IH]; intros n; cbn [poll_tiles].
  - sat_leaf.
  - destruct ((n =? 9)%nat || (n =? 16)%nat); [sat_leaf|].
    unfold wait_for_timeout, all. sat_seq. sat_seq. apply IH.
Qed.

Lemma sat_load_tiles : sat I (load_tiles w).
Proof.
  unfold load_tiles, all. sat_seq. apply sat_poll_tiles.
Qed.

(** In verify mode [detect_tiles] does not retry. *)
Lemma sat_detect_tiles_verify (rec : M PyVal) (prompt : string)
    (area_captcha : bool) (frame : string) :
  sat I (detect_tiles w rec prompt area_captcha true frame).
Proof.
  unfold detect_tiles, screenshot. sat_seq. sat_seq.
  destruct (negb (existsb (fun b => b) (fst a0))); cbn [negb].
  - sat_leaf.
  - apply I_bind; [apply sat_click_coordinates | intros _; sat_leaf].
Qed.

Lemma sat_dynamic_loop (fuel : nat) (rec : M PyVal) (prompt : string)
    (area_captcha : bool) (frame : string) (v : PyVal) :
  sat I (dynamic_loop w fuel rec prompt area_captcha frame v).
Proof.
  revert v. induction fuel as [|fuel IH]; intros v;
    cbn [dynamic_loop]; destruct (truthy v); try sat_leaf.
  unfold wait_for_timeout. sat_seq.
  apply I_bind; [apply sat_detect_tiles_verify | exact IH].
Qed.

Lemma sat_submit_challenge (frame : string) : sat I (submit_challenge w frame).
Proof.
  unfold submit_challenge, click. sat_catch; [sat_leaf|].
  apply I_bind; [apply sat_check_captcha_visible|].
  intros [|]; sat_leaf.
Qed.

Lemma sat_wait_for_token (k : nat) : sat I (wait_for_token w k).
Proof.
  induction k as [|k IH]; cbn [wait_for_token]; [sat_leaf|].
  sat_seq. destruct (str_truthy (captcha_token a)); [sat_leaf|].
  apply I_bind; [apply sat_check_result|]. intros r.
  destruct (opt_truthy r); [sat_leaf|].
  unfold wait_for_timeout. sat_seq. exact IH.
Qed.

Lemma sat_cycle (fuel : nat) (rec : M PyVal) (prompt : string) :
  sat I rec -> sat I (cycle w fuel rec prompt).
Proof.
  intros Hrec. unfold cycle.
  apply I_bind; [apply sat_load_tiles | intros n].
  apply I_bind; [now apply sat_detect_tiles | intros v].
  sat_seq. apply I_bind.
  - destruct (dynamic a && negb (n =? 16)%nat);
      [apply sat_dynamic_loop | sat_leaf].
  - intros v'. destruct (is_str v'); [sat_leaf|].
    apply I_bind; [apply sat_submit_challenge | intros _].
    apply I_bind; [apply sat_wait_for_token | intros [t|]];
      [sat_leaf | now apply I_retry_after_wait].
Qed.

Lemma sat_handle_recaptcha (fuel : nat) : sat I (handle_recaptcha w fuel).
Proof.
  induction fuel as [|fuel IH]; cbn [handle_recaptcha]; [sat_leaf|].
  apply I_bind.
  - sat_catch.
    + apply I_bind; [apply sat_read_prompt | intros p; sat_leaf].
    + apply I_bind; [apply sat_frame_did_not_load | intros v; sat_leaf].
  - intros [prompt|v]; [now apply sat_cycle | sat_leaf].
Qed.

Lemma sat_open_challenge (fuel : nat) : sat I (open_challenge w fuel).
Proof.
  unfold open_challenge.
  apply I_bind; [apply sat_click_checkbox | intros _].
  apply I_bind; [apply sat_check_captcha_visible | intros visible].
  destruct visible; cbn [negb].
  - unfold wait_for_timeout. sat_seq. apply sat_handle_recaptcha.
  - sat_seq. sat_leaf.
Qed.

End Invariant.

(* ----------------------------------------------------------------- *)
(** ** The retry counter *)

Lemma retry_inv_idle {A} (s : Challenger) (r : Run A) :
  retry_times (final r) = retry_times s ->
  retried (final r) = retried s ->
  retry_inv s r.
Proof. intros H1 H2. unfold retry_inv. rewrite H1, H2. split; [|left]; lia. Qed.

Lemma retry_inv_bind {A B} (m : M A) (k : A -> M B) :
  sat (@retry_inv) m -> (forall a, sat (@retry_inv) (k a)) ->
  sat (@retry_inv) (bind m k).
Proof.
  intros Hm Hk s. specialize (Hm s). unfold bind.
  destruct (outcome (m s)) as [a| e |] eqn:Ho; cbn.
  - specialize (Hk a (final (m s))). unfold retry_inv in *. cbn.
    destruct Hm as [HL Hm], Hk as [HL' Hk]. rewrite HL in *.
    split; [congruence|].
    destruct Hm as [[Hle Hm] | [Hr _]]; [|congruence].
    destruct Hk as [[Hle' Hk] | (Hr & Hlt & Hmax)].
    + left. lia.
    + right. split; [exact Hr|]. lia.
  - unfold retry_inv in *. cbn. rewrite Ho in Hm.
    destruct Hm as [HL [Hm | (Hr & Hm)]]; [auto|].
    injection Hr as ->. auto.
  - unfold retry_inv in *. cbn. rewrite Ho in Hm.
    destruct Hm as [HL [Hm | [Hr _]]]; [|discriminate]. auto.
Qed.

Lemma retry_inv_catch {A} (p : exn -> bool) (m h : M A) :
  (forall n, p (RecursionError n) = false) ->
  sat (@retry_inv) m -> sat (@retry_inv) h -> sat (@retry_inv) (catch p m h).
Proof.
  intros Hp Hm Hh s. specialize (Hm s). unfold catch.
  destruct (outcome (m s)) as [a| e |] eqn:Ho; try exact Hm.
  destruct (p e) eqn:Hpe; [|exact Hm].
  specialize (Hh (final (m s))). unfold retry_inv in *. cbn.
  destruct Hm as [HL Hm], Hh as [HL' Hh]. rewrite HL in *.
  split; [congruence|].
  destruct Hm as [[Hle Hm] | [Hr _]].
  - destruct Hh as [[Hle' Hh] | (Hr & Hlt & Hmax)].
    + left. lia.
    + right. split; [exact Hr|]. lia.
  - rewrite Ho in Hr. injection Hr as ->. rewrite Hp in Hpe. discriminate.
Qed.

Lemma retry_inv_await (w : World) {A} (ev : Event) (answer : nat -> Res A) :
  sat (@retry_inv) (await w ev answer).
Proof.
  intros s. destruct (suspend_frame w s) as (Hr & HL & _).
  apply retry_inv_idle; assumption.
Qed.

(** The increment and its check (lines 100 to 102 and 175 to 177), followed
    by [k]. *)
Lemma retry_inv_increment {A} (k : M A) :
  sat (@retry_inv) k ->
  sat (@retry_inv)
      (bind incr_retried
            (fun _ => bind get
               (fun s => if retried s >=? retry_times s
                         then raise (RecursionError (retry_times s))
                         else k))).
Proof.
  intros Hk s. unfold bind, incr_retried, get. cbn.
  destruct (retried s + 1 >=? retry_times s) eqn:Hge; cbn.
  - unfold retry_inv. cbn. split; [reflexivity|]. right.
    apply Z.geb_le in Hge. split; [reflexivity | lia].
  - specialize (Hk (set_retried (retried s + 1) s)).
    unfold retry_inv in *. cbn in *.
    assert (Hlt : retried s + 1 < retry_times s).
    { rewrite Z.geb_leb in Hge. apply Z.leb_gt in Hge. exact Hge. }
    destruct Hk as [HL Hk]. split; [exact HL|].
    destruct Hk as [[Hle Hk] | (Hr & Hlt' & Hmax)].
    + left. lia.
    + right. split; [exact Hr | lia].
Qed.

Lemma retry_inv_retry (w : World) (rec : M PyVal) (frame : string)
    (verify : bool) :
  sat (@retry_inv) rec -> sat (@retry_inv) (retry w rec frame verify).
Proof.
  intros Hrec. unfold retry. apply retry_inv_increment.
  apply retry_inv_bind; [intros s; now apply retry_inv_idle | intros _].
  apply retry_inv_bind; [intros s; now apply retry_inv_idle | intros _].
  apply retry_inv_bind; [|intros _; exact Hrec].
  destruct verify; [apply retry_inv_await|].
  apply retry_inv_bind; [intros s; now apply retry_inv_idle | intros _].
  apply retry_inv_await.
Qed.

Lemma retry_inv_retry_after_wait (rec : M PyVal) :
  sat (@retry_inv) rec -> sat (@retry_inv) (retry_after_wait rec).
Proof. intros Hrec. unfold retry_after_wait. now apply retry_inv_increment. Qed.

Lemma retry_inv_handle_recaptcha (w : World) (fuel : nat) :
  sat (@retry_inv) (handle_recaptcha w fuel).
Proof.
  apply sat_handle_recaptcha.
  - intros A a s. now apply retry_inv_idle.
  - intros A B. apply retry_inv_bind.
  - intros A. apply retry_inv_catch.
  - intros A ev answer _ _. apply retry_inv_await.
  - intros s. now apply retry_inv_idle.
  - intros msg s. now apply retry_inv_idle.
  - intros prompt image area s. now apply retry_inv_idle.
  - intros A s. now apply retry_inv_idle.
  - intros A msg s. now apply retry_inv_idle.
  - intros rec frame. apply retry_inv_retry.
  - apply retry_inv_retry_after_wait.
Qed.

Lemma retry_inv_open_challenge (w : World) (fuel : nat) :
  sat (@retry_inv) (open_challenge w fuel).
Proof.
  apply sat_open_challenge.
  - intros A a s. now apply retry_inv_idle.
  - intros A B. apply retry_inv_bind.
  - intros A. apply retry_inv_catch.
  - intros A ev answer _ _. apply retry_inv_await.
  - intros s. now apply retry_inv_idle.
  - intros msg s. now apply retry_inv_idle.
  - intros prompt image area s. now apply retry_inv_idle.
  - intros A s. now apply retry_inv_idle.
  - intros A msg s. now apply retry_inv_idle.
  - intros rec frame. apply retry_inv_retry.
  - apply retry_inv_retry_after_wait.
Qed.

Lemma retry_inv_solve_recaptcha (w : World) (fuel : nat) :
  sat (@retry_inv) (solve_recaptcha w fuel).
Proof.
  rewrite solve_recaptcha_unfold.
  apply retry_inv_bind; [intros s; now apply retry_inv_idle | intros _].
  apply retry_inv_bind; [intros s; now apply retry_inv_idle | intros _].
  apply retry_inv_open_challenge.
Qed.

(** The increment that reaches the limit raises, in [retry]. *)
Lemma retry_at_limit (w : World) (rec : M PyVal) (frame : string)
    (verify : bool) (s : Challenger) :
  retry_times s <= retried s + 1 ->
  retry w rec frame verify s
  = mkRun (Raise (RecursionError (retry_times s)))
          (set_retried (retried s + 1) s) [].
Proof.
  intros H. unfold retry, bind, incr_retried, get. cbn.
  apply Z.geb_le in H. rewrite H. reflexivity.
Qed.

(** The increment that reaches the limit raises, after the token wait. *)
Lemma retry_after_wait_at_limit (rec : M PyVal) (s : Challenger) :
  retry_times s <= retried s + 1 ->
  retry_after_wait rec s
  = mkRun (Raise (RecursionError (retry_times s)))
          (set_retried (retried s + 1) s) [].
Proof.
  intros H. unfold retry_after_wait, bind, incr_retried, get. cbn.
  apply Z.geb_le in H. rewrite H. reflexivity.
Qed.

Lemma retry_inv_limit {A} (s : Challenger) (r : Run A) :
  retry_inv s r -> limit_reached s r ->
  outcome r = Raise (RecursionError (retry_times s))
  /\ retried (final r) = Z.max (retry_times s) (retried s + 1).
Proof.
  intros [_ [[Hle H] | (Hr & _ & Hmax)]] [Hlt Hge]; [lia | auto].
Qed.

(** C1, as the code has it.  In every call of [solve_recaptcha], [retried]
    does not decrease; a call entered with [retried] below [retry_times]
    never takes it past [retry_times]; the increment that takes it to the
    limit raises the retry-limit error, in [retry] and after the token wait
    alike; and a call in which the limit was reached ends in that error, so
    it returns no token. *)
Theorem retried_monotone_and_fatal (w : World) (fuel : nat) (s : Challenger) :
  let r := solve_recaptcha w fuel s in
  retried s <= retried (final r)
  /\ (retried s < retry_times s -> retried (final r) <= retry_times s)
  /\ (limit_reached s r -> outcome r = Raise (RecursionError (retry_times s)))
  /\ (forall v, outcome r = Ret v -> ~ limit_reached s r)
  /\ (forall rec frame verify s',
        retry_times s' <= retried s' + 1 ->
        outcome (retry w rec frame verify s')
        = Raise (RecursionError (retry_times s')))
  /\ (forall rec s',
        retry_times s' <= retried s' + 1 ->
        outcome (retry_after_wait rec s')
        = Raise (RecursionError (retry_times s'))).
Proof.
  intros r. pose proof (retry_inv_solve_recaptcha w fuel s) as Hinv.
  fold r in Hinv. repeat split.
  - destruct Hinv as [_ [[Hle _] | (_ & Hlt & _)]]; lia.
  - intros Hlow. destruct Hinv as [_ [[Hle H] | (_ & Hlt & Hmax)]]; lia.
  - intros Hlim. exact (proj1 (retry_inv_limit s r Hinv Hlim)).
  - intros v Hv Hlim.
    rewrite (proj1 (retry_inv_limit s r Hinv Hlim)) in Hv. discriminate.
  - intros rec frame verify s' H. now rewrite retry_at_limit.
  - intros rec s' H. now rewrite retry_after_wait_at_limit.
Qed.

Lemma retried_monotone_and_fatal_witness :
  limit_reached (init None 2)
                (solve_recaptcha Scenario.stubborn 5 (init None 2))
  /\ outcome (solve_recaptcha Scenario.stubborn 5 (init None 2))
     = Raise (RecursionError 2).
Proof.
  assert (H : limit_reached (init None 2)
                (solve_recaptcha Scenario.stubborn 5 (init None 2))).
  { unfold limit_reached. vm_compute. split; [reflexivity | discriminate]. }
  split; [exact H|].
  exact (proj1 (proj2 (proj2 (retried_monotone_and_fatal
                                Scenario.stubborn 5 (init None 2)))) H).
Defined.

(** C1 as stated fails: on an instance built with [retry_times=1], a second
    call of [solve_recaptcha] after one that hit the limit takes [retried]
    to 2. *)
Lemma retried_exceeds_retry_times :
  let first := solve_recaptcha Scenario.stubborn 5 (init None 1) in
  let second := solve_recaptcha Scenario.stubborn 5 (final first) in
  outcome first = Raise (RecursionError 1)
  /\ retry_times (final second) = 1
  /\ retried (final second) = 2
  /\ ~ retried (final second) <= retry_times (final second).
Proof.
  vm_compute. repeat split; try reflexivity. intros H. now apply H.
Qed.

(** C9, as the code has it.  [retried] is 0 on a new instance and no
    operation lowers it: neither the observer, nor a cycle, nor a call of
    [solve_recaptcha], whatever its outcome.  So a call on an instance that
    has retried before hits the retry limit after [retry_times - retried]
    failed cycles (one, if that is not positive): never more than the ones a
    new instance takes, and fewer exactly when something was inherited and
    [retry_times] is above 1. *)
Theorem retried_never_reset :
  (forall ct rt, retried (init ct rt) = 0)
  /\ (forall req s, retried (request_handler req s) = retried s)
  /\ (forall w fuel s, retried s <= retried (final (handle_recaptcha w fuel s)))
  /\ (forall w fuel s, retried s <= retried (final (solve_recaptcha w fuel s)))
  /\ (forall w fuel s,
        limit_reached s (solve_recaptcha w fuel s) ->
        failed_cycles s (solve_recaptcha w fuel s)
        = Z.max (retry_times s - retried s) 1)
  /\ (forall w1 w2 fuel1 fuel2 fresh used,
        retried fresh = 0 -> 0 < retried used ->
        retry_times used = retry_times fresh -> 1 < retry_times fresh ->
        limit_reached fresh (solve_recaptcha w1 fuel1 fresh) ->
        limit_reached used (solve_recaptcha w2 fuel2 used) ->
        failed_cycles used (solve_recaptcha w2 fuel2 used)
        < failed_cycles fresh (solve_recaptcha w1 fuel1 fresh))
  /\ (forall w1 w2 fuel1 fuel2 fresh used,
        retried fresh = 0 -> 0 <= retried used ->
        retry_times used = retry_times fresh ->
        limit_reached fresh (solve_recaptcha w1 fuel1 fresh) ->
        limit_reached used (solve_recaptcha w2 fuel2 used) ->
        failed_cycles used (solve_recaptcha w2 fuel2 used)
        <= failed_cycles fresh (solve_recaptcha w1 fuel1 fresh)
        /\ (failed_cycles used (solve_recaptcha w2 fuel2 used)
            < failed_cycles fresh (solve_recaptcha w1 fuel1 fresh)
            <-> 0 < retried used /\ 1 < retry_times fresh)).
Proof.
  assert (Hcount : forall w fuel s,
            limit_reached s (solve_recaptcha w fuel s) ->
            failed_cycles s (solve_recaptcha w fuel s)
            = Z.max (retry_times s - retried s) 1).
  { intros w fuel s Hlim. unfold failed_cycles.
    destruct (retry_inv_limit _ _ (retry_inv_solve_recaptcha w fuel s) Hlim)
      as [_ ->]. lia. }
  split; [|split; [|split; [|split; [|split; [|split]]]]].
  - reflexivity.
  - intros req s. apply request_handler_frame.
  - intros w fuel s.
    destruct (retry_inv_handle_recaptcha w fuel s)
      as [_ [[Hle _] | (_ & Hlt & _)]]; lia.
  - intros w fuel s.
    destruct (retry_inv_solve_recaptcha w fuel s)
      as [_ [[Hle _] | (_ & Hlt & _)]]; lia.
  - exact Hcount.
  - intros w1 w2 fuel1 fuel2 fresh used H0 Hpos HL H1 Hf Hu.
    rewrite (Hcount _ _ _ Hf), (Hcount _ _ _ Hu). lia.
  - intros w1 w2 fuel1 fuel2 fresh used H0 Hpos HL Hf Hu.
    rewrite (Hcount _ _ _ Hf), (Hcount _ _ _ Hu). lia.
Qed.

Lemma retried_never_reset_witness :
  let fresh := init None 3 in
  let first := solve_recaptcha Scenario.stubborn 5 fresh in
  let used := final first in
  let second := solve_recaptcha Scenario.stubborn 5 used in
  retried fresh = 0 /\ 0 < retried used
  /\ retry_times used = retry_times fresh /\ 1 < retry_times fresh
  /\ limit_reached fresh first /\ limit_reached used second
  /\ failed_cycles used second < failed_cycles fresh first
  /\ failed_cycles used second <= failed_cycles fresh first.
Proof.
  intros fresh first used second.
  assert (H0 : retried fresh = 0) by reflexivity.
  assert (Hpos : 0 < retried used) by (vm_compute; reflexivity).
  assert (Hnn : 0 <= retried used) by (vm_compute; discriminate).
  assert (HL : retry_times used = retry_times fresh)
    by (vm_compute; reflexivity).
  assert (H1 : 1 < retry_times fresh) by (vm_compute; reflexivity).
  assert (Hf : limit_reached fresh first).
  { unfold limit_reached. vm_compute. split; [reflexivity | discriminate]. }
  assert (Hu : limit_reached used second).
  { unfold limit_reached. vm_compute. split; [reflexivity | discriminate]. }
  split; [exact H0|]. split; [exact Hpos|]. split; [exact HL|].
  split; [exact H1|]. split; [exact Hf|]. split; [exact Hu|].
  split.
  - exact (proj1 (proj2 (proj2 (proj2 (proj2 (proj2 retried_never_reset)))))
             Scenario.stubborn Scenario.stubborn 5%nat 5%nat fresh used
             H0 Hpos HL H1 Hf Hu).
  - exact (proj1
             (proj2 (proj2 (proj2 (proj2 (proj2 (proj2 retried_never_reset)))))
                Scenario.stubborn Scenario.stubborn 5%nat 5%nat fresh used
                H0 Hnn HL Hf Hu)).
Defined.

(** C9 as stated fails: on an instance built with [retry_times=1], a new
    instance raises the retry-limit error at its first failed cycle, and so
    does the second call on it, which inherits [retried = 1]: one failed
    cycle each, not fewer. *)
Lemma second_call_takes_as_many_cycles :
  let fresh := init None 1 in
  let first := solve_recaptcha Scenario.stubborn 5 fresh in
  let used := final first in
  let second := solve_recaptcha Scenario.stubborn 5 used in
  retried fresh = 0
  /\ outcome first = Raise (RecursionError 1)
  /\ retried used = 1
  /\ failed_cycles fresh first = 1
  /\ outcome second = Raise (RecursionError 1)
  /\ retried (final second) = 2
  /\ failed_cycles used second = 1
  /\ ~ failed_cycles used second < failed_cycles fresh first.
Proof.
  vm_compute. repeat split; try reflexivity. discriminate.
Qed.

(* ----------------------------------------------------------------- *)
(** ** Where the shared fields are reset *)

Lemma resets_match_reloads_nil {A} (s : Challenger) (r : Run A) :
  trace r = [] -> resets_match_reloads s r.
Proof. intros H. unfold resets_match_reloads. rewrite H. now cbn. Qed.

Lemma resets_match_reloads_app {A B} (s1 s2 s : Challenger)
    (r1 : Run A) (r2 : Run B) (r : Run B) :
  resets_match_reloads s1 r1 -> resets_match_reloads s2 r2 ->
  trace r = (trace r1 ++ trace r2)%list ->
  resets_match_reloads s r.
Proof.
  unfold resets_match_reloads. intros (H1 & H2 & H3) (H1' & H2' & H3') ->.
  rewrite !count_app. lia.
Qed.

Lemma resets_match_reloads_bind {A B} (m : M A) (k : A -> M B) :
  sat (@resets_match_reloads) m ->
  (forall a, sat (@resets_match_reloads) (k a)) ->
  sat (@resets_match_reloads) (bind m k).
Proof.
  intros Hm Hk s. specialize (Hm s). unfold bind.
  destruct (outcome (m s)) as [a| e |]; try exact Hm.
  eapply resets_match_reloads_app; [exact Hm | apply (Hk a) | reflexivity].
Qed.

Lemma resets_match_reloads_catch {A} (p : exn -> bool) (m h : M A) :
  sat (@resets_match_reloads) m -> sat (@resets_match_reloads) h ->
  sat (@resets_match_reloads) (catch p m h).
Proof.
  intros Hm Hh s. specialize (Hm s). unfold catch.
  destruct (outcome (m s)) as [a| e |]; try exact Hm.
  destruct (p e); [|exact Hm].
  eapply resets_match_reloads_app; [exact Hm | apply Hh | reflexivity].
Qed.

Lemma resets_match_reloads_await (w : World) {A} (ev : Event)
    (answer : nat -> Res A) :
  is_click_on "#recaptcha-reload-button" ev = false ->
  is_field_write ev = false ->
  sat (@resets_match_reloads) (await w ev answer).
Proof.
  intros Hc Hw s. unfold resets_match_reloads, await. cbn [trace].
  rewrite !count_cons, Hc, Hw.
  destruct ev; try discriminate; now cbn.
Qed.

(** [retry] with [verify=False] resets both fields once and clicks the
    reload button once, unless it raises at the limit. *)
Lemma resets_match_reloads_retry (w : World) (rec : M PyVal) (frame : string) :
  sat (@resets_match_reloads) rec ->
  sat (@resets_match_reloads) (retry w rec frame false).
Proof.
  intros Hrec s. unfold retry, bind, incr_retried, get, raise,
    assign_dynamic, assign_captcha_token, print, click, await. cbn.
  destruct (retried s + 1 >=? retry_times s); cbn.
  - now apply resets_match_reloads_nil.
  - destruct (w_click w _ frame "#recaptcha-reload-button") as [[]|e]; cbn.
    + match goal with
      | |- context [rec ?s'] => specialize (Hrec s'); revert Hrec;
                                generalize (rec s')
      end.
      intros r (H1 & H2 & H3). unfold resets_match_reloads. cbn [trace].
      rewrite !count_cons. cbn. lia.
    + unfold resets_match_reloads. cbn [trace]. rewrite !count_cons.
      now cbn.
Qed.

Lemma resets_match_reloads_retry_after_wait (rec : M PyVal) :
  sat (@resets_match_reloads) rec ->
  sat (@resets_match_reloads) (retry_after_wait rec).
Proof.
  intros Hrec s. unfold retry_after_wait, bind, incr_retried, get, raise.
  cbn. destruct (retried s + 1 >=? retry_times s); cbn.
  - now apply resets_match_reloads_nil.
  - apply Hrec.
Qed.

Lemma resets_match_reloads_open_challenge (w : World) (fuel : nat) :
  sat (@resets_match_reloads) (open_challenge w fuel).
Proof.
  apply sat_open_challenge.
  - intros A a s. now apply resets_match_reloads_nil.
  - intros A B. apply resets_match_reloads_bind.
  - intros A p m h _. apply resets_match_reloads_catch.
  - intros A. apply resets_match_reloads_await.
  - intros s. now apply resets_match_reloads_nil.
  - intros msg s. unfold resets_match_reloads. now cbn.
  - intros prompt image area s. unfold resets_match_reloads. now cbn.
  - intros A s. now apply resets_match_reloads_nil.
  - intros A msg s. now apply resets_match_reloads_nil.
  - intros rec frame. apply resets_match_reloads_retry.
  - apply resets_match_reloads_retry_after_wait.
Qed.

(** C4 as stated fails: when the detector finds nothing on the first pass,
    [retry] resets the two fields a second time within the call, and a token
    the observer captured during that pass is gone: the call returns
    [False].  With a detector that finds a tile the same call returns the
    token. *)
Lemma token_reset_by_retry :
  let lost := solve_recaptcha (Scenario.captured_during_screenshot [])
                              3 (init None 15) in
  let kept := solve_recaptcha
                (Scenario.captured_during_screenshot Scenario.one_byte)
                3 (init None 15) in
  count is_reset_token (trace lost) = 2%nat
  /\ count is_reset_dynamic (trace lost) = 2%nat
  /\ outcome lost = Ret (VBool false)
  /\ captcha_token (final lost) = EmptyString
  /\ outcome kept = Ret (VStr "TOKEN")
  /\ captcha_token
       (final (retry Scenario.stubborn (ret (VBool true)) bframe false
                     Scenario.holding_token)) = EmptyString.
Proof. vm_compute. repeat split. Qed.

(* ----------------------------------------------------------------- *)
(** ** The two retry transitions *)

Lemma retry_below_limit (w : World) (rec : M PyVal) (frame : string)
    (verify : bool) (s : Challenger) :
  retried s + 1 < retry_times s ->
  retry w rec frame verify s
  = bind (assign_dynamic false)
         (fun _ =>
            bind (assign_captcha_token EmptyString)
                 (fun _ =>
                    bind (if verify
                          then click w frame "#recaptcha-verify-button" None
                          else
                            bind (print "[INFO] Reloading Captcha and Retrying")
                                 (fun _ => click w frame
                                             "#recaptcha-reload-button" None))
                         (fun _ => rec)))
         (set_retried (retried s + 1) s).
Proof.
  intros H. unfold retry at 1. unfold bind at 1 2. unfold incr_retried, get.
  cbn. assert (Hge : (retried s + 1 >=? retry_times s) = false).
  { rewrite Z.geb_leb. apply Z.leb_gt. exact H. }
  rewrite Hge. now rewrite run_eta.
Qed.

Lemma retry_after_wait_below_limit (rec : M PyVal) (s : Challenger) :
  retried s + 1 < retry_times s ->
  retry_after_wait rec s = rec (set_retried (retried s + 1) s).
Proof.
  intros H. unfold retry_after_wait, bind, incr_retried, get. cbn.
  assert (Hge : (retried s + 1 >=? retry_times s) = false).
  { rewrite Z.geb_leb. apply Z.leb_gt. exact H. }
  rewrite Hge. now rewrite run_eta.
Qed.

(** C3, as the code has it.  Below the limit, [retry] increments
    [retried], resets [dynamic] and [captcha_token], clicks the reload button
    (the verify button when called with [verify=True]) and only then
    re-enters the cycle, in the state the click's suspension leaves; the
    re-entry after the exhausted token wait increments [retried] and
    re-enters the cycle at once, with no reset and no click. *)
Theorem retry_transitions (w : World) (rec : M PyVal) (frame : string)
    (verify : bool) (s : Challenger)
    (Hbelow : retried s + 1 < retry_times s) :
  let counted := set_retried (retried s + 1) s in
  let reset := set_captcha_token EmptyString (set_dynamic false counted) in
  let button := if verify then "#recaptcha-verify-button"
                else "#recaptcha-reload-button" in
  let head := ([ESetDynamic false; ESetCaptchaToken EmptyString]
               ++ (if verify then []
                   else [EPrint "[INFO] Reloading Captcha and Retrying"])
               ++ [EClick frame button None])%list in
  match w_click w (clock s) frame button with
  | Ok _ =>
      retry w rec frame verify s
      = mkRun (outcome (rec (suspend w reset)))
              (final (rec (suspend w reset)))
              (head ++ trace (rec (suspend w reset)))
  | Err e => retry w rec frame verify s = mkRun (Raise e) (suspend w reset) head
  end
  /\ retry_after_wait rec s = rec counted.
Proof.
  intros counted reset button head. split.
  - rewrite (retry_below_limit w rec frame verify s Hbelow).
    unfold bind, assign_dynamic, assign_captcha_token, print, click, await.
    subst head button. fold counted.
    destruct verify; cbn;
      match goal with
      | |- context [w_click w ?t ?f ?l] =>
          destruct (w_click w t f l) as [[]|e]; reflexivity
      end.
  - now apply retry_after_wait_below_limit.
Qed.

Lemma retry_transitions_witness :
  let s := Scenario.holding_token in
  retried s + 1 < retry_times s
  /\ trace (retry Scenario.stubborn (ret (VBool false)) bframe false s)
     = [ESetDynamic false; ESetCaptchaToken EmptyString;
        EPrint "[INFO] Reloading Captcha and Retrying";
        EClick bframe "#recaptcha-reload-button" None]
  /\ retry_after_wait (ret (VBool false)) s
     = mkRun (Ret (VBool false)) (set_retried 1 s) [].
Proof.
  intros s. assert (H : retried s + 1 < retry_times s) by reflexivity.
  split; [exact H|].
  pose proof (retry_transitions Scenario.stubborn (ret (VBool false))
                bframe false s H) as [Hretry Hwait].
  split.
  - exact (f_equal trace Hretry).
  - exact Hwait.
Defined.

(** C3 as stated fails for the retry after the token wait: on a
    sixteen-tile challenge whose token never comes, the call goes through a
    second cycle ([retried] is 1, the prompt is read twice) with no write to
    the shared fields other than the two at entry and no click on the reload
    button; [dynamic], set by the observer in the first cycle, is still set
    at the end. *)
Lemma retry_after_wait_resets_nothing :
  let r := solve_recaptcha Scenario.area_then_gone 3 (init None 15) in
  outcome r = Ret (VBool false)
  /\ retried (final r) = 1
  /\ count is_text_content (trace r) = 2%nat
  /\ count is_field_write (trace r) = 2%nat
  /\ count (is_click_on "#recaptcha-reload-button") (trace r) = 0%nat
  /\ dynamic (final r) = true.
Proof. vm_compute. repeat split. Qed.

(* ----------------------------------------------------------------- *)
(** ** The loop of a dynamic challenge *)

Lemma counter_untouched_idle {A} (s : Challenger) (r : Run A) :
  final r = s -> counter_untouched s r.
Proof. intros H. unfold counter_untouched. now rewrite H. Qed.

Lemma counter_untouched_bind {A B} (m : M A) (k : A -> M B) :
  sat (@counter_untouched) m -> (forall a, sat (@counter_untouched) (k a)) ->
  sat (@counter_untouched) (bind m k).
Proof.
  intros Hm Hk s. specialize (Hm s). unfold bind.
  destruct (outcome (m s)) as [a| e |]; try exact Hm.
  destruct Hm as [H1 H2], (Hk a (final (m s))) as [H1' H2'].
  split; cbn; congruence.
Qed.

Lemma counter_untouched_await (w : World) {A} (ev : Event)
    (answer : nat -> Res A) :
  sat (@counter_untouched) (await w ev answer).
Proof.
  intros s. destruct (suspend_frame w s) as (Hr & HL & _). now split.
Qed.

Lemma counter_untouched_dynamic_loop (w : World) (fuel : nat) (rec : M PyVal)
    (prompt : string) (area_captcha : bool) (frame : string) (v : PyVal) :
  sat (@counter_untouched)
      (dynamic_loop w fuel rec prompt area_captcha frame v).
Proof.
  apply sat_dynamic_loop.
  - intros A a s. now apply counter_untouched_idle.
  - intros A B. apply counter_untouched_bind.
  - intros A ev answer _ _. apply counter_untouched_await.
  - intros s. now apply counter_untouched_idle.
  - intros p image area s. now apply counter_untouched_idle.
  - intros A s. now apply counter_untouched_idle.
Qed.

Lemma bind_outcome_ret {A B} (m : M A) (k : A -> M B) (s : Challenger)
    (b : B) :
  outcome (bind m k s) = Ret b ->
  exists a, outcome (m s) = Ret a /\ outcome (k a (final (m s))) = Ret b.
Proof.
  unfold bind. destruct (outcome (m s)) as [a| e |]; cbn; try discriminate.
  intros H. now exists a.
Qed.

(** In verify mode [detect_tiles] answers with a boolean and never looks at
    the cycle it was given. *)
Lemma detect_tiles_verify_bool (w : World) (rec : M PyVal) (prompt : string)
    (area_captcha : bool) (frame : string) (s : Challenger) (v : PyVal) :
  outcome (detect_tiles w rec prompt area_captcha true frame s) = Ret v ->
  exists b, v = VBool b.
Proof.
  unfold detect_tiles. intros H.
  apply bind_outcome_ret in H as (image & _ & H).
  apply bind_outcome_ret in H as (found & _ & H).
  destruct (negb (existsb (fun b => b) (fst found))); cbn [negb] in H.
  - injection H as <-. now exists false.
  - apply bind_outcome_ret in H as (u & _ & H).
    injection H as <-. now exists true.
Qed.

Lemma detect_tiles_verify_rec (w : World) (rec rec' : M PyVal)
    (prompt : string) (area_captcha : bool) (frame : string) :
  detect_tiles w rec prompt area_captcha true frame
  = detect_tiles w rec' prompt area_captcha true frame.
Proof. reflexivity. Qed.

Lemma dynamic_loop_rec (w : World) (fuel : nat) (rec rec' : M PyVal)
    (prompt : string) (area_captcha : bool) (frame : string) (v : PyVal)
    (s : Challenger) :
  dynamic_loop w fuel rec prompt area_captcha frame v s
  = dynamic_loop w fuel rec' prompt area_captcha frame v s.
Proof.
  revert v s. induction fuel as [|fuel IH]; intros v s; cbn [dynamic_loop];
    destruct (truthy v); try reflexivity.
  rewrite (detect_tiles_verify_rec w rec rec'). unfold bind.
  destruct (outcome (wait_for_timeout w 5000 s)); try reflexivity.
  destruct (outcome (detect_tiles w rec' prompt area_captcha true frame _));
    try reflexivity.
  now rewrite IH.
Qed.

Lemma dynamic_loop_exit (w : World) (fuel : nat) (rec : M PyVal)
    (prompt : string) (area_captcha : bool) (frame : string) (v : PyVal)
    (s : Challenger) (v' : PyVal) :
  outcome (dynamic_loop w fuel rec prompt area_captcha frame v s) = Ret v' ->
  truthy v' = false /\ (v' = v \/ v' = VBool false).
Proof.
  revert v s. induction fuel as [|fuel IH]; intros v s; cbn [dynamic_loop];
    destruct (truthy v) eqn:Hv; cbn; try discriminate.
  - intros H. injection H as <-. auto.
  - intros H. apply bind_outcome_ret in H as (u & _ & H).
    apply bind_outcome_ret in H as (v1 & Hd & H).
    apply detect_tiles_verify_bool in Hd as [b ->].
    apply IH in H as [Hf [-> | ->]]; [|auto].
    split; [exact Hf|]. right. cbn in Hf. now rewrite Hf.
  - intros H. injection H as <-. auto.
Qed.

(* ----------------------------------------------------------------- *)
(** ** Grid polling *)

Lemma observed_cons_nonempty (k : nat) (c : nat) (cs : list nat) :
  exists l, observed k (c :: cs) = c :: l.
Proof. cbn [observed]. eexists. reflexivity. Qed.

Lemma observed_length (k : nat) (cs : list nat) :
  (List.length (observed k cs) <= S k)%nat.
Proof.
  revert cs. induction k as [|k IH]; intros [|c cs]; cbn [observed];
    try (cbn; lia).
  - destruct ((c =? 9)%nat || (c =? 16)%nat); cbn; lia.
  - destruct ((c =? 9)%nat || (c =? 16)%nat); cbn; [lia|].
    specialize (IH cs). lia.
Qed.

(** The loop returns the last count it looked at, and looks as often as
    [observed] says. *)
Lemma poll_tiles_observed (w : World) (k : nat) :
  forall (cs : list nat) (n : nat) (s : Challenger),
    List.length cs = k ->
    (forall j, (j < k)%nat ->
       w_wait_for_timeout w (clock s + 2 * j)%nat 1000 = Ok tt
       /\ w_all w (clock s + 2 * j + 1)%nat bframe tile_locator
          = Ok (nth j cs 0%nat)) ->
    outcome (poll_tiles w k n s) = Ret (last (observed k (n :: cs)) 0%nat)
    /\ S (count is_all (trace (poll_tiles w k n s)))
       = List.length (observed k (n :: cs)).
Proof.
  induction k as [|k IH]; intros cs n s Hlen Hw; cbn [poll_tiles observed].
  - destruct ((n =? 9)%nat || (n =? 16)%nat); now cbn.
  - destruct ((n =? 9)%nat || (n =? 16)%nat); [now cbn|].
    destruct cs as [|c cs]; [discriminate|].
    destruct (Hw 0%nat ltac:(lia)) as [Hwait Hall].
    replace (clock s + 2 * 0)%nat with (clock s) in * by lia.
    unfold wait_for_timeout.
    rewrite (bind_await_ok w _ _ _ s tt Hwait).
    destruct (suspend_frame w s) as (_ & _ & _ & Hclock).
    unfold all.
    assert (Hall' : w_all w (clock (suspend w s)) bframe tile_locator = Ok c).
    { rewrite Hclock. replace (S (clock s)) with (clock s + 1)%nat by lia.
      exact Hall. }
    rewrite (bind_await_ok w _ (fun t => w_all w t bframe tile_locator)
               _ (suspend w s) c Hall').
    cbn [outcome trace].
    destruct (suspend_frame w (suspend w s)) as (_ & _ & _ & Hclock2).
    destruct (IH cs c (suspend w (suspend w s))) as [Ho Hc].
    + cbn in Hlen. lia.
    + intros j Hj. destruct (Hw (S j) ltac:(lia)) as [Hwj Haj].
      rewrite Hclock2, Hclock.
      replace (S (S (clock s)) + 2 * j)%nat with (clock s + 2 * S j)%nat by lia.
      split; [exact Hwj | exact Haj].
    + rewrite Ho. rewrite !count_cons. cbn [is_all].
      destruct (observed_cons_nonempty k c cs) as [l Hl].
      rewrite Hl in *. split; [reflexivity|]. cbn [List.length] in *. lia.
Qed.

Lemma load_tiles_observed (w : World) (s : Challenger) (cs : list nat) :
  List.length cs = 11%nat ->
  (forall i, (i < 11)%nat -> offered w (clock s) i = Ok (nth i cs 0%nat)) ->
  (forall i, (i < 10)%nat ->
     w_wait_for_timeout w (clock s + 2 * i + 1)%nat 1000 = Ok tt) ->
  outcome (load_tiles w s) = Ret (last (observed 10 cs) 0%nat)
  /\ count is_all (trace (load_tiles w s)) = List.length (observed 10 cs).
Proof.
  intros Hlen Hcounts Hwaits. destruct cs as [|c cs]; [discriminate|].
  unfold load_tiles, all.
  assert (H0 : w_all w (clock s) bframe tile_locator = Ok c).
  { specialize (Hcounts 0%nat ltac:(lia)). unfold offered in Hcounts.
    replace (clock s + 2 * 0)%nat with (clock s) in Hcounts by lia.
    exact Hcounts. }
  rewrite (bind_await_ok w _ (fun t => w_all w t bframe tile_locator)
             _ s c H0).
  cbn [outcome trace].
  destruct (suspend_frame w s) as (_ & _ & _ & Hclock).
  destruct (poll_tiles_observed w 10 cs c (suspend w s)) as [Ho Hc].
  - cbn in Hlen. lia.
  - intros j Hj. rewrite Hclock. split.
    + replace (S (clock s) + 2 * j)%nat with (clock s + 2 * j + 1)%nat by lia.
      apply Hwaits. exact Hj.
    + specialize (Hcounts (S j) ltac:(lia)). unfold offered in Hcounts.
      replace (S (clock s) + 2 * j + 1)%nat with (clock s + 2 * S j)%nat
        by lia.
      exact Hcounts.
  - split; [exact Ho|]. rewrite count_cons. cbn [is_all].
    rewrite <- Hc. reflexivity.
Qed.

Lemma bind_trace_prefix {A B} (m : M A) (k : A -> M B) (s : Challenger) :
  exists rest, trace (bind m k s) = (trace (m s) ++ rest)%list.
Proof.
  unfold bind. destruct (outcome (m s)) as [a| e |]; cbn.
  - eauto.
  - exists []. now rewrite app_nil_r.
  - exists []. now rewrite app_nil_r.
Qed.

(** [detect_tiles] takes the screenshot and hands it to the detector. *)
Lemma detect_tiles_trace (w : World) (rec : M PyVal) (prompt : string)
    (area_captcha verify : bool) (frame : string) (s : Challenger)
    (image : Image) :
  w_screenshot w (clock s) = Ok image ->
  exists rest,
    trace (detect_tiles w rec prompt area_captcha verify frame s)
    = EScreenshot :: EDetect prompt area_captcha :: rest.
Proof.
  intros Hshot. unfold detect_tiles, screenshot.
  rewrite (bind_await_ok w _ _ _ s image Hshot). cbn [trace].
  match goal with
  | |- context [bind ?m ?k ?s'] =>
      destruct (bind_trace_prefix m k s') as [rest ->]
  end.
  cbn. eauto.
Qed.

(** C6.  Of the tile counts the page gives, the polling looks at those of
    [observed 10]: the first one and up to ten more, one second apart,
    stopping behind a 9 or a 16.  The last one looked at decides:
    [area_captcha] is true if and only if it is 16, and whatever it is, the
    cycle goes on to the detection with that [area_captcha]. *)
Theorem grid_polling_selects_area (w : World) (fuel : nat) (rec : M PyVal)
    (prompt : string) (s : Challenger) (cs : list nat) (image : Image)
    (Hlen : List.length cs = 11%nat)
    (Hcounts : forall i, (i < 11)%nat ->
                 offered w (clock s) i = Ok (nth i cs 0%nat))
    (Hwaits : forall i, (i < 10)%nat ->
                w_wait_for_timeout w (clock s + 2 * i + 1)%nat 1000 = Ok tt)
    (Hshot : w_screenshot w (clock (final (load_tiles w s))) = Ok image) :
  let seen := observed 10 cs in
  let n := last seen 0%nat in
  let area_captcha := (n =? 16)%nat in
  outcome (load_tiles w s) = Ret n
  /\ count is_all (trace (load_tiles w s)) = List.length seen
  /\ (List.length seen <= 11)%nat
  /\ (area_captcha = true <-> n = 16%nat)
  /\ exists rest,
       trace (cycle w fuel rec prompt s)
       = (trace (load_tiles w s)
          ++ EScreenshot :: EDetect prompt area_captcha :: rest)%list.
Proof.
  intros seen n area_captcha.
  destruct (load_tiles_observed w s cs Hlen Hcounts Hwaits) as [Ho Hc].
  fold seen in Ho, Hc. fold n in Ho.
  split; [exact Ho|]. split; [exact Hc|].
  split; [apply observed_length|].
  split; [apply Nat.eqb_eq|].
  unfold cycle. rewrite (bind_ret_run _ _ s n Ho). cbn [trace].
  match goal with
  | |- context [bind ?m ?k ?s'] =>
      destruct (bind_trace_prefix m k s') as [rest ->]
  end.
  destruct (detect_tiles_trace w rec prompt area_captcha area_captcha bframe
              (final (load_tiles w s)) image Hshot) as [rest' Hd].
  fold area_captcha. rewrite Hd. cbn. eauto.
Qed.

Lemma grid_polling_selects_area_witness :
  let cs := [0; 4; 16; 9; 9; 9; 9; 9; 9; 9; 9]%nat in
  let s := init None 15 in
  observed 10 cs = [0; 4; 16]%nat
  /\ outcome (load_tiles Scenario.slow_grid s) = Ret 16%nat
  /\ count is_all (trace (load_tiles Scenario.slow_grid s)) = 3%nat.
Proof.
  intros cs s. split; [reflexivity|].
  assert (Hcounts : forall i, (i < 11)%nat ->
            offered Scenario.slow_grid (clock s) i = Ok (nth i cs 0%nat)).
  { intros i Hi. do 11 (destruct i as [|i]; [reflexivity|]). lia. }
  destruct (grid_polling_selects_area Scenario.slow_grid 1
              (ret (VBool false)) "cars" s cs Scenario.one_byte
              eq_refl Hcounts (fun _ _ => eq_refl) eq_refl)
    as (Ho & Hc & _).
  split; [exact Ho | exact Hc].
Defined.

(* ----------------------------------------------------------------- *)
(** ** When the label does not resolve *)

(** C7, the code at a failing input.  The observer has captured the token
    during the settle delay; the label then does not resolve and the page
    has no response accessor.  The cycle asks the page only, not the
    captured field, and returns [False] with the token in
    [captcha_token]. *)
Lemma captured_token_ignored_when_frame_missing :
  let r := solve_recaptcha Scenario.captured_then_gone 3 (init None 15) in
  outcome r = Ret (VBool false)
  /\ captcha_token (final r) = "TOKEN"
  /\ retried (final r) = 0
  /\ count (is_evaluate "grecaptcha.getResponse()") (trace r) = 1%nat.
Proof. vm_compute. repeat split. Qed.

(* ----------------------------------------------------------------- *)
(** ** What a call can end in *)

Lemma ends_in_weaken {A} (okv okv' : A -> Prop) (oke oke' : Z -> exn -> Prop)
    (s : Challenger) (r : Run A) :
  (forall a, okv a -> okv' a) ->
  (forall e, oke (retry_times s) e -> oke' (retry_times s) e) ->
  ends_in okv oke s r -> ends_in okv' oke' s r.
Proof.
  intros Hv He [HL H]. split; [exact HL|].
  destruct (outcome r); auto.
Qed.

Lemma ends_in_ret {A} (okv : A -> Prop) (oke : Z -> exn -> Prop) (a : A)
    (s : Challenger) :
  okv a -> ends_in okv oke s (ret a s).
Proof. intros H. now split. Qed.

Lemma ends_in_bind {A B} (okA : A -> Prop) (okB : B -> Prop)
    (oke : Z -> exn -> Prop) (m : M A) (k : A -> M B) :
  (forall s, ends_in okA oke s (m s)) ->
  (forall a, okA a -> forall s, ends_in okB oke s (k a s)) ->
  forall s, ends_in okB oke s (bind m k s).
Proof.
  intros Hm Hk s. destruct (Hm s) as [HL H]. unfold bind.
  destruct (outcome (m s)) as [a| e |]; [|now split..].
  destruct (Hk a H (final (m s))) as [HL' H'].
  split; cbn; [congruence|]. rewrite HL in H'. exact H'.
Qed.

Lemma ends_in_catch {A} (okv : A -> Prop) (oke1 oke : Z -> exn -> Prop)
    (p : exn -> bool) (m h : M A) :
  (forall s, ends_in okv oke1 s (m s)) ->
  (forall s, ends_in okv oke s (h s)) ->
  (forall limit e, oke1 limit e -> p e = false -> oke limit e) ->
  forall s, ends_in okv oke s (catch p m h s).
Proof.
  intros Hm Hh Hp s. destruct (Hm s) as [HL H]. unfold catch.
  destruct (outcome (m s)) as [a| e |] eqn:Ho.
  - split; [exact HL | now rewrite Ho].
  - destruct (p e) eqn:Hpe.
    + destruct (Hh (final (m s))) as [HL' H'].
      split; cbn; [congruence|]. rewrite HL in H'. exact H'.
    + split; [exact HL|]. rewrite Ho. now apply Hp.
  - split; [exact HL | now rewrite Ho].
Qed.

Lemma ends_in_await (w : World) {A} (p : exn -> bool) (ev : Event)
    (answer : nat -> Res A) :
  (forall t, ok_or p (answer t) = true) ->
  forall s, ends_in any_value (raised_by p) s (await w ev answer s).
Proof.
  intros Hans s. destruct (suspend_frame w s) as (_ & HL & _).
  split; [exact HL|]. unfold await. cbn.
  specialize (Hans (clock s)). now destruct (answer (clock s)).
Qed.

(** An awaited call that cannot fail. *)
Lemma ends_in_await_never (w : World) {A} (oke : Z -> exn -> Prop)
    (ev : Event) (answer : nat -> Res A) :
  (forall t, ok_or never (answer t) = true) ->
  forall s, ends_in any_value oke s (await w ev answer s).
Proof.
  intros Hans s.
  apply (ends_in_weaken any_value any_value (raised_by never) oke);
    [auto | intros e He; discriminate He | now apply ends_in_await].
Qed.

Lemma ends_in_seq {A B} (okB : B -> Prop) (oke : Z -> exn -> Prop)
    (m : M A) (k : A -> M B) :
  (forall s, ends_in any_value oke s (m s)) ->
  (forall a s, ends_in okB oke s (k a s)) ->
  forall s, ends_in okB oke s (bind m k s).
Proof.
  intros Hm Hk. apply (ends_in_bind any_value okB oke); [exact Hm|].
  intros a _. apply Hk.
Qed.

Lemma ends_in_get {B} (okB : B -> Prop) (oke : Z -> exn -> Prop)
    (k : Challenger -> M B) :
  (forall s, ends_in okB oke s (k s s)) ->
  forall s, ends_in okB oke s (bind get k s).
Proof.
  intros Hk s. destruct (Hk s) as [HL H]. unfold bind, get. cbn.
  split; assumption.
Qed.

Lemma ends_in_print (oke : Z -> exn -> Prop) (msg : string) (s : Challenger) :
  ends_in any_value oke s (print msg s).
Proof. now split. Qed.

Lemma ends_in_assign_dynamic (oke : Z -> exn -> Prop) (b : bool)
    (s : Challenger) :
  ends_in any_value oke s (assign_dynamic b s).
Proof. now split. Qed.

Lemma ends_in_assign_captcha_token (oke : Z -> exn -> Prop) (t : string)
    (s : Challenger) :
  ends_in any_value oke s (assign_captcha_token t s).
Proof. now split. Qed.

(** The increment and its check, followed by [k]. *)
Lemma ends_in_increment {A} (okv : A -> Prop) (k : M A) :
  (forall s, ends_in okv fatal s (k s)) ->
  forall s,
    ends_in okv fatal s
      (bind incr_retried
            (fun _ => bind get
               (fun s0 => if retried s0 >=? retry_times s0
                          then raise (RecursionError (retry_times s0))
                          else k)) s).
Proof.
  intros Hk s. unfold bind, incr_retried, get. cbn.
  destruct (retried s + 1 >=? retry_times s); cbn.
  - split; [reflexivity|]. cbn. now left.
  - destruct (Hk (set_retried (retried s + 1) s)) as [HL H].
    split; [exact HL | exact H].
Qed.

Section Calm.

Variable w : World.
Hypothesis Hcalm : calm w.

Lemma ends_in_evaluate (script : string) (s : Challenger) :
  ends_in any_value (raised_by is_playwright) s (evaluate w script s).
Proof. apply ends_in_await. intros t. apply (calm_evaluate w Hcalm). Qed.

Lemma ends_in_wait_for_timeout (oke : Z -> exn -> Prop) (ms : Z)
    (s : Challenger) :
  ends_in any_value oke s (wait_for_timeout w ms s).
Proof.
  apply ends_in_await_never. intros t.
  apply (calm_wait_for_timeout w Hcalm).
Qed.

(** A click may time out, but not the one on the reload button. *)
Lemma ends_in_click (frame locator : string) (timeout : option Z)
    (s : Challenger) :
  ends_in any_value
          (raised_by (fun e => is_timeout e
                               && negb (String.eqb locator
                                          "#recaptcha-reload-button")))
          s (click w frame locator timeout s).
Proof. apply ends_in_await. intros t. apply (calm_click w Hcalm). Qed.

Lemma ends_in_check_result (oke : Z -> exn -> Prop) (s : Challenger) :
  ends_in any_value oke s (check_result w s).
Proof.
  apply (ends_in_weaken any_value any_value no_exn oke);
    [auto | intros e []|].
  revert s. unfold check_result.
  assert (Hcaught : forall limit e,
            raised_by is_playwright limit e -> is_playwright e = false ->
            no_exn limit e).
  { unfold raised_by. intros limit e H1 H2. congruence. }
  apply (ends_in_catch any_value (raised_by is_playwright) no_exn);
    [| |exact Hcaught].
  - apply ends_in_seq; [apply ends_in_evaluate|].
    intros v s. now apply ends_in_ret.
  - apply (ends_in_catch any_value (raised_by is_playwright) no_exn);
      [| |exact Hcaught].
    + apply ends_in_seq; [apply ends_in_evaluate|].
      intros v s. now apply ends_in_ret.
    + intros s. now apply ends_in_ret.
Qed.

Lemma ends_in_check_captcha_visible (oke : Z -> exn -> Prop)
    (s : Challenger) :
  ends_in any_value oke s (check_captcha_visible w s).
Proof.
  apply (ends_in_weaken any_value any_value no_exn oke);
    [auto | intros e []|].
  revert s. unfold check_captcha_visible.
  apply (ends_in_catch any_value (raised_by is_timeout) no_exn).
  - apply ends_in_seq.
    + intros s. apply ends_in_await. intros t.
      apply (calm_wait_for w Hcalm).
    + intros v s. now apply ends_in_ret.
  - intros s. now apply ends_in_ret.
  - unfold raised_by. intros limit e H1 H2. congruence.
Qed.

Lemma click_timeout_caught (locator : string) (limit : Z) (e : exn) :
  raised_by (fun e => is_timeout e
                      && negb (String.eqb locator "#recaptcha-reload-button"))
            limit e ->
  is_timeout e = false -> no_exn limit e.
Proof.
  unfold raised_by. intros H1 H2. rewrite H2 in H1. discriminate.
Qed.

Lemma ends_in_click_checkbox (oke : Z -> exn -> Prop) (s : Challenger) :
  ends_in any_value oke s (click_checkbox w s).
Proof.
  apply (ends_in_weaken any_value any_value no_exn oke);
    [auto | intros e []|].
  revert s. unfold click_checkbox.
  eapply (ends_in_catch any_value _ no_exn).
  - apply ends_in_seq; [apply ends_in_click|].
    intros v s. now apply ends_in_ret.
  - intros s. now apply ends_in_ret.
  - apply click_timeout_caught.
Qed.

Lemma ends_in_submit_challenge (oke : Z -> exn -> Prop) (frame : string)
    (s : Challenger) :
  ends_in any_value oke s (submit_challenge w frame s).
Proof.
  apply (ends_in_weaken any_value any_value no_exn oke);
    [auto | intros e []|].
  revert s. unfold submit_challenge.
  eapply (ends_in_catch any_value _ no_exn).
  - apply ends_in_click.
  - apply ends_in_seq; [apply ends_in_check_captcha_visible|].
    intros [|] s; [apply ends_in_print | now apply ends_in_ret].
  - apply click_timeout_caught.
Qed.

Lemma ends_in_click_coordinates (oke : Z -> exn -> Prop)
    (coordinates : list (Z * Z)) (s : Challenger) :
  ends_in any_value oke s (click_coordinates w coordinates s).
Proof.
  revert s. induction coordinates as [|[x y] rest IH];
    cbn [click_coordinates].
  - intros s. now apply ends_in_ret.
  - apply ends_in_seq.
    + intros s. apply ends_in_await_never. intros t.
      apply (calm_mouse_click w Hcalm).
    + intros _. apply ends_in_get. intros s0.
      apply ends_in_seq; [|intros _; exact IH].
      destruct (click_timeout s0) as [t|]; [destruct (t =? 0)|]; intros s;
        try (now apply ends_in_ret); apply ends_in_wait_for_timeout.
Qed.

Lemma ends_in_retry (rec : M PyVal) (frame : string) :
  (forall s, ends_in token_or_false fatal s (rec s)) ->
  forall s, ends_in token_or_false fatal s (retry w rec frame false s).
Proof.
  intros Hrec. unfold retry. apply ends_in_increment.
  apply ends_in_seq; [apply ends_in_assign_dynamic | intros _].
  apply ends_in_seq; [apply ends_in_assign_captcha_token | intros _].
  apply ends_in_seq; [|intros _; exact Hrec].
  apply ends_in_seq; [apply ends_in_print | intros _ s].
  eapply ends_in_weaken; [| |apply ends_in_click]; [auto|].
  unfold raised_by. intros e H. rewrite andb_false_r in H. discriminate.
Qed.

Lemma ends_in_retry_after_wait (rec : M PyVal) :
  (forall s, ends_in token_or_false fatal s (rec s)) ->
  forall s, ends_in token_or_false fatal s (retry_after_wait rec s).
Proof. intros Hrec. unfold retry_after_wait. now apply ends_in_increment. Qed.

Lemma ends_in_detect_tiles (rec : M PyVal) (prompt : string)
    (area_captcha verify : bool) (frame : string) :
  (forall s, ends_in token_or_false fatal s (rec s)) ->
  forall s,
    ends_in token_or_bool fatal s
            (detect_tiles w rec prompt area_captcha verify frame s).
Proof.
  intros Hrec. unfold detect_tiles. apply ends_in_seq.
  - intros s. apply ends_in_await_never. intros t.
    apply (calm_screenshot w Hcalm).
  - intros image. apply ends_in_seq; [intros s; now split | intros found].
    destruct (negb (existsb (fun b => b) (fst found))).
    + destruct verify; cbn [negb].
      * intros s. now apply ends_in_ret.
      * apply ends_in_seq; [apply ends_in_print | intros _ s].
        apply (ends_in_weaken token_or_false token_or_bool fatal fatal);
          [intros [t|b]; cbn; auto | auto | now apply ends_in_retry].
    + apply ends_in_seq; [apply ends_in_click_coordinates | intros _ s].
      now apply ends_in_ret.
Qed.

Lemma ends_in_dynamic_loop (fuel : nat) (rec : M PyVal) (prompt : string)
    (area_captcha : bool) (frame : string) :
  (forall s, ends_in token_or_false fatal s (rec s)) ->
  forall v, token_or_bool v ->
  forall s,
    ends_in token_or_bool fatal s
            (dynamic_loop w fuel rec prompt area_captcha frame v s).
Proof.
  intros Hrec. induction fuel as [|fuel IH]; intros v Hv;
    cbn [dynamic_loop]; destruct (truthy v);
    try (intros s; now apply ends_in_ret); try (intros s; now split).
  apply ends_in_seq; [apply ends_in_wait_for_timeout | intros _].
  apply (ends_in_bind token_or_bool token_or_bool fatal);
    [now apply ends_in_detect_tiles | exact IH].
Qed.

Lemma ends_in_read_prompt (s : Challenger) :
  ends_in any_value fatal_or_timeout s (read_prompt w s).
Proof.
  revert s. unfold read_prompt. apply ends_in_seq.
  - intros s.
    apply (ends_in_weaken any_value any_value (raised_by is_timeout)
                          fatal_or_timeout); [auto| |].
    + unfold raised_by. intros [] He; try discriminate. now right.
    + apply ends_in_await. intros t. apply (calm_text_content w Hcalm).
  - intros [p|] s; [destruct (str_truthy p)|];
      try (now apply ends_in_ret);
      (split; [reflexivity|]; cbn; left; now right).
Qed.

Lemma ends_in_frame_did_not_load (s : Challenger) :
  ends_in token_or_false fatal s (frame_did_not_load w s).
Proof.
  revert s. unfold frame_did_not_load.
  apply ends_in_seq; [apply ends_in_check_result|].
  intros [t|]; cbn [opt_truthy]; [destruct (str_truthy t) eqn:Ht|].
  - intros s. now apply ends_in_ret.
  - apply ends_in_seq; [apply ends_in_print | intros _ s].
    now apply ends_in_ret.
  - apply ends_in_seq; [apply ends_in_print | intros _ s].
    now apply ends_in_ret.
Qed.

Lemma ends_in_poll_tiles (oke : Z -> exn -> Prop) (k n : nat)
    (s : Challenger) :
  ends_in any_value oke s (poll_tiles w k n s).
Proof.
  revert n s. induction k as [|k IH]; intros n; cbn [poll_tiles].
  - intros s. now apply ends_in_ret.
  - destruct ((n =? 9)%nat || (n =? 16)%nat);
      [intros s; now apply ends_in_ret|].
    apply ends_in_seq; [apply ends_in_wait_for_timeout | intros _].
    apply ends_in_seq; [|exact IH].
    intros s. apply ends_in_await_never. intros t.
    apply (calm_all w Hcalm).
Qed.

Lemma ends_in_load_tiles (oke : Z -> exn -> Prop) (s : Challenger) :
  ends_in any_value oke s (load_tiles w s).
Proof.
  revert s. unfold load_tiles. apply ends_in_seq.
  - intros s. apply ends_in_await_never. intros t. apply (calm_all w Hcalm).
  - intros n s. apply ends_in_poll_tiles.
Qed.

Lemma ends_in_wait_for_token (oke : Z -> exn -> Prop) (k : nat)
    (s : Challenger) :
  ends_in token_or_none oke s (wait_for_token w k s).
Proof.
  revert s. induction k as [|k IH]; cbn [wait_for_token].
  - intros s. now apply ends_in_ret.
  - apply ends_in_get. intros s0.
    destruct (str_truthy (captcha_token s0)) eqn:Ht.
    + now apply ends_in_ret.
    + clear Ht.
      apply ends_in_seq; [apply ends_in_check_result | intros r].
      destruct (opt_truthy r) eqn:Hr.
      * intros s. apply ends_in_ret. destruct r; [exact Hr | exact I].
      * apply ends_in_seq; [apply ends_in_wait_for_timeout | intros _].
        exact IH.
Qed.

Lemma ends_in_cycle (fuel : nat) (rec : M PyVal) (prompt : string) :
  (forall s, ends_in token_or_false fatal s (rec s)) ->
  forall s, ends_in token_or_false fatal s (cycle w fuel rec prompt s).
Proof.
  intros Hrec. unfold cycle.
  apply ends_in_seq; [apply ends_in_load_tiles | intros n].
  apply (ends_in_bind token_or_bool token_or_false fatal);
    [now apply ends_in_detect_tiles | intros v Hv].
  apply ends_in_get. intros s0.
  apply (ends_in_bind token_or_bool token_or_false fatal).
  - destruct (dynamic s0 && negb (n =? 16)%nat).
    + now apply ends_in_dynamic_loop.
    + intros s. now apply ends_in_ret.
  - intros [t|b] Hv'; cbn [is_str].
    + intros s. now apply ends_in_ret.
    + apply ends_in_seq; [apply ends_in_submit_challenge | intros _].
      apply (ends_in_bind token_or_none token_or_false fatal);
        [apply ends_in_wait_for_token|].
      intros [t|] Ht; [intros s; now apply ends_in_ret|].
      now apply ends_in_retry_after_wait.
Qed.

Lemma ends_in_handle_recaptcha (fuel : nat) (s : Challenger) :
  ends_in token_or_false fatal s (handle_recaptcha w fuel s).
Proof.
  revert s. induction fuel as [|fuel IH]; cbn [handle_recaptcha];
    [intros s; now split|].
  apply (ends_in_bind
           (fun r : string + PyVal =>
              match r with inl _ => True | inr v => token_or_false v end)
           token_or_false fatal).
  - apply (ends_in_catch _ fatal_or_timeout fatal).
    + apply ends_in_seq; [apply ends_in_read_prompt|].
      intros p s. now apply ends_in_ret.
    + apply (ends_in_bind token_or_false _ fatal);
        [apply ends_in_frame_did_not_load|].
      intros v Hv s. now apply ends_in_ret.
    + intros limit e [H | ->] Hp; [exact H | discriminate].
  - intros [prompt|v] Hv; [now apply ends_in_cycle|].
    intros s. now apply ends_in_ret.
Qed.

Lemma ends_in_solve_recaptcha (fuel : nat) (s : Challenger) :
  ends_in token_or_false fatal s (solve_recaptcha w fuel s).
Proof.
  revert s. rewrite solve_recaptcha_unfold.
  apply ends_in_seq; [apply ends_in_assign_dynamic | intros _].
  apply ends_in_seq; [apply ends_in_assign_captcha_token | intros _].
  unfold open_challenge.
  apply ends_in_seq; [apply ends_in_click_checkbox | intros _].
  apply ends_in_seq; [apply ends_in_check_captcha_visible | intros visible].
  destruct visible; cbn [negb].
  - apply ends_in_seq; [apply ends_in_wait_for_timeout | intros _].
    apply ends_in_handle_recaptcha.
  - apply ends_in_seq; [apply ends_in_print | intros _ s].
    now apply ends_in_ret.
Qed.

End Calm.

(** An empty or missing prompt raises [ValueError] out of the cycle. *)
Lemma handle_recaptcha_no_prompt (w : World) (fuel : nat) (s : Challenger)
    (p : option string) :
  w_text_content w (clock s) bframe "//strong" = Ok p ->
  opt_truthy p = false ->
  handle_recaptcha w (S fuel) s
  = mkRun (Raise (ValueError "reCaptcha Task Text did not load."))
          (suspend w s) [ETextContent bframe "//strong"].
Proof.
  intros Hp Hfalsy. cbn [handle_recaptcha].
  assert (Hread : read_prompt w s
                  = mkRun (Raise (ValueError
                                    "reCaptcha Task Text did not load."))
                          (suspend w s) [ETextContent bframe "//strong"]).
  { unfold read_prompt, text_content.
    rewrite (bind_await_ok w _ _ _ s p Hp).
    destruct p as [[|c p]|]; try discriminate Hfalsy; reflexivity. }
  set (m := bind (read_prompt w) (fun prompt => ret (inl prompt))).
  set (h := bind (frame_did_not_load w) (fun v => ret (inr v))).
  assert (Hm : m s
               = mkRun (Raise (ValueError
                                 "reCaptcha Task Text did not load."))
                       (suspend w s) [ETextContent bframe "//strong"]).
  { unfold m, bind. now rewrite Hread. }
  assert (Hc : catch is_timeout m h s = m s).
  { unfold catch. now rewrite Hm. }
  rewrite (bind_raise_run (catch is_timeout m h) _ s
             (ValueError "reCaptcha Task Text did not load."));
    rewrite Hc, Hm; reflexivity.
Qed.

Lemma calm_stubborn : calm Scenario.stubborn.
Proof. constructor; intros; reflexivity. Qed.


(* ----------------------------------------------------------------- *)
(** ** Enough fuel

    When the observer never sets [dynamic], the loop of the dynamic
    challenge is not entered, and every re-entry of the cycle follows an
    increment of [retried] that stayed below the limit: fuel for the
    retries left is enough. *)

Lemma retries_left_set_dynamic (b : bool) (s : Challenger) :
  retries_left (set_dynamic b s) = retries_left s.
Proof. reflexivity. Qed.

Lemma steady_same {A} (n : nat) (s : Challenger) (r : Run A) :
  outcome r <> OutOfFuel -> final r = s -> steady n s r.
Proof. intros Ho Hf Hd Hn. rewrite Hf. auto. Qed.

Lemma steady_ret (n : nat) A (a : A) : sat (@steady n) (ret a).
Proof. intros s. now apply steady_same. Qed.

Lemma steady_bind (n : nat) A B (m : M A) (k : A -> M B) :
  sat (@steady n) m -> (forall a, sat (@steady n) (k a)) ->
  sat (@steady n) (bind m k).
Proof.
  intros Hm Hk s Hd Hn. destruct (Hm s Hd Hn) as (Ho & Hd' & Hn').
  unfold bind. destruct (outcome (m s)) as [a| e |]; cbn.
  - apply (Hk a (final (m s)) Hd' Hn').
  - repeat split; [discriminate | assumption..].
  - now contradiction Ho.
Qed.

Lemma steady_catch (n : nat) A (p : exn -> bool) (m h : M A) :
  sat (@steady n) m -> sat (@steady n) h -> sat (@steady n) (catch p m h).
Proof.
  intros Hm Hh s Hd Hn. destruct (Hm s Hd Hn) as (Ho & Hd' & Hn').
  unfold catch. destruct (outcome (m s)) as [a| e |] eqn:Hout.
  - rewrite Hout. auto.
  - destruct (p e).
    + cbn. apply (Hh (final (m s)) Hd' Hn').
    + rewrite Hout. auto.
  - now contradiction Ho.
Qed.

Lemma steady_get_bind (n : nat) B (k : Challenger -> M B) :
  (forall s, steady n s (k s s)) -> sat (@steady n) (bind get k).
Proof.
  intros Hk s Hd Hn. destruct (Hk s Hd Hn) as (Ho & Hd' & Hn').
  unfold bind, get. cbn. auto.
Qed.

Lemma steady_assign_dynamic_false (n : nat) :
  sat (@steady n) (assign_dynamic false).
Proof. intros s _ Hn. repeat split; [discriminate | exact Hn]. Qed.

Lemma steady_assign_captcha_token (n : nat) (t : string) :
  sat (@steady n) (assign_captcha_token t).
Proof. intros s Hd Hn. repeat split; [discriminate | exact Hd | exact Hn]. Qed.

Section EnoughFuel.

Variable w : World.
Hypothesis Hquiet : never_dynamic w.

Lemma steady_await (n : nat) A (ev : Event) (answer : nat -> Res A) :
  sat (@steady n) (await w ev answer).
Proof.
  intros s Hd Hn. unfold await. cbn [outcome final].
  split; [destruct (answer (clock s)); discriminate|].
  destruct (suspend_frame w s) as (Hr & HL & _).
  split.
  - unfold suspend. cbn. now apply Hquiet.
  - unfold retries_left in *. rewrite Hr, HL. exact Hn.
Qed.

Ltac steady_rule n :=
  first
    [ exact (steady_ret n)
    | exact (steady_bind n)
    | intros ? ? ? ? _; exact (steady_catch n _ _ _ _)
    | intros ? ? ? _ _; exact (steady_await n _ _ _)
    | intros s; now apply steady_same
    | intros ? s; now apply steady_same
    | intros ? ? s; now apply steady_same
    | intros ? ? ? s; now apply steady_same ].

Lemma steady_check_result (n : nat) : sat (@steady n) (check_result w).
Proof. apply sat_check_result; steady_rule n. Qed.

Lemma steady_check_captcha_visible (n : nat) :
  sat (@steady n) (check_captcha_visible w).
Proof. apply sat_check_captcha_visible; steady_rule n. Qed.

Lemma steady_click_checkbox (n : nat) : sat (@steady n) (click_checkbox w).
Proof. apply sat_click_checkbox; steady_rule n. Qed.

Lemma steady_click_coordinates (n : nat) (coordinates : list (Z * Z)) :
  sat (@steady n) (click_coordinates w coordinates).
Proof. apply sat_click_coordinates; steady_rule n. Qed.

Lemma steady_frame_did_not_load (n : nat) :
  sat (@steady n) (frame_did_not_load w).
Proof. apply sat_frame_did_not_load; steady_rule n. Qed.

Lemma steady_read_prompt (n : nat) : sat (@steady n) (read_prompt w).
Proof. apply sat_read_prompt; steady_rule n. Qed.

Lemma steady_load_tiles (n : nat) : sat (@steady n) (load_tiles w).
Proof. apply sat_load_tiles; steady_rule n. Qed.

Lemma steady_submit_challenge (n : nat) (frame : string) :
  sat (@steady n) (submit_challenge w frame).
Proof. apply sat_submit_challenge; steady_rule n. Qed.

Lemma steady_wait_for_token (n : nat) (k : nat) :
  sat (@steady n) (wait_for_token w k).
Proof. apply sat_wait_for_token; steady_rule n. Qed.

(** The increment and its check, followed by [k]: [k] runs with one retry
    less. *)
Lemma steady_increment (n : nat) {A} (k : M A) :
  (forall m, n = S m -> sat (@steady m) k) ->
  sat (@steady n)
      (bind incr_retried
            (fun _ => bind get
               (fun s0 => if retried s0 >=? retry_times s0
                          then raise (RecursionError (retry_times s0))
                          else k))).
Proof.
  intros Hk s Hd Hn. unfold bind, incr_retried, get. cbn.
  destruct (retried s + 1 >=? retry_times s) eqn:Hge; cbn.
  - split; [discriminate|]. split; [exact Hd|].
    unfold retries_left in *. cbn. lia.
  - assert (Hlt : retried s + 1 < retry_times s).
    { rewrite Z.geb_leb in Hge. apply Z.leb_gt in Hge. exact Hge. }
    destruct n as [|m]; [unfold retries_left in Hn; lia|].
    destruct (Hk m eq_refl (set_retried (retried s + 1) s)) as (Ho & Hd' & Hn').
    + exact Hd.
    + unfold retries_left in *. cbn. lia.
    + repeat split; [exact Ho | exact Hd' | lia].
Qed.

Lemma steady_retry (n : nat) (rec : M PyVal) (frame : string) (verify : bool) :
  (forall m, n = S m -> sat (@steady m) rec) ->
  sat (@steady n) (retry w rec frame verify).
Proof.
  intros Hrec. unfold retry. apply steady_increment. intros m Hm.
  apply steady_bind; [apply steady_assign_dynamic_false | intros _].
  apply steady_bind; [apply steady_assign_captcha_token | intros _].
  apply steady_bind; [|intros _; now apply Hrec].
  destruct verify; [apply steady_await|].
  apply steady_bind; [intros s; now apply steady_same | intros _].
  apply steady_await.
Qed.

Lemma steady_retry_after_wait (n : nat) (rec : M PyVal) :
  (forall m, n = S m -> sat (@steady m) rec) ->
  sat (@steady n) (retry_after_wait rec).
Proof. intros Hrec. unfold retry_after_wait. now apply steady_increment. Qed.

Lemma steady_detect_tiles (n : nat) (rec : M PyVal) (prompt : string)
    (area_captcha verify : bool) (frame : string) :
  (forall m, n = S m -> sat (@steady m) rec) ->
  sat (@steady n) (detect_tiles w rec prompt area_captcha verify frame).
Proof.
  intros Hrec. unfold detect_tiles.
  apply steady_bind; [apply steady_await | intros image].
  apply steady_bind; [intros s; now apply steady_same | intros found].
  destruct (negb (existsb (fun b => b) (fst found))).
  - destruct (negb verify); [|apply steady_ret].
    apply steady_bind; [intros s; now apply steady_same | intros _].
    now apply steady_retry.
  - apply steady_bind; [apply steady_click_coordinates | intros _].
    apply steady_ret.
Qed.

Lemma steady_cycle (n : nat) (fuel : nat) (rec : M PyVal) (prompt : string) :
  (forall m, n = S m -> sat (@steady m) rec) ->
  sat (@steady n) (cycle w fuel rec prompt).
Proof.
  intros Hrec. unfold cycle.
  apply steady_bind; [apply steady_load_tiles | intros k].
  apply steady_bind; [now apply steady_detect_tiles | intros v].
  apply steady_get_bind. intros s Hd Hn. rewrite Hd. cbn [andb].
  revert s Hd Hn. change (sat (@steady n)
    (bind (ret v)
       (fun v' => if is_str v' then ret v'
                  else bind (submit_challenge w bframe)
                         (fun _ => bind (wait_for_token w 5)
                            (fun t => match t with
                                      | Some t => ret (VStr t)
                                      | None => retry_after_wait rec
                                      end))))).
  apply steady_bind; [apply steady_ret | intros v'].
  destruct (is_str v'); [apply steady_ret|].
  apply steady_bind; [apply steady_submit_challenge | intros _].
  apply steady_bind; [apply steady_wait_for_token | intros [t|]].
  - apply steady_ret.
  - now apply steady_retry_after_wait.
Qed.

Lemma steady_handle_recaptcha (n : nat) :
  sat (@steady n) (handle_recaptcha w (S n)).
Proof.
  induction n as [|n IH]; cbn [handle_recaptcha].
  - apply steady_bind.
    + apply steady_catch.
      * apply steady_bind; [apply steady_read_prompt | intros p].
        apply steady_ret.
      * apply steady_bind; [apply steady_frame_did_not_load | intros v].
        apply steady_ret.
    + intros [prompt|v]; [|apply steady_ret].
      apply steady_cycle. intros m Hm. discriminate Hm.
  - apply steady_bind.
    + apply steady_catch.
      * apply steady_bind; [apply steady_read_prompt | intros p].
        apply steady_ret.
      * apply steady_bind; [apply steady_frame_did_not_load | intros v].
        apply steady_ret.
    + intros [prompt|v]; [|apply steady_ret].
      apply steady_cycle. intros m Hm. injection Hm as <-. exact IH.
Qed.

(** With fuel for the retries left, [solve_recaptcha] does not run out of
    fuel. *)
Lemma solve_recaptcha_enough_fuel (fuel : nat) (s : Challenger) :
  (retries_left s <= fuel)%nat ->
  outcome (solve_recaptcha w (S fuel) s) <> OutOfFuel.
Proof.
  intros Hn. rewrite solve_recaptcha_unfold.
  assert (H : sat (@steady fuel)
                (bind (assign_captcha_token EmptyString)
                      (fun _ => open_challenge w (S fuel)))).
  { apply steady_bind; [apply steady_assign_captcha_token | intros _].
    unfold open_challenge.
    apply steady_bind; [apply steady_click_checkbox | intros _].
    apply steady_bind; [apply steady_check_captcha_visible | intros v].
    destruct (negb v).
    - apply steady_bind; [intros s'; now apply steady_same | intros _].
      apply steady_ret.
    - apply steady_bind; [apply steady_await | intros _].
      apply steady_handle_recaptcha. }
  unfold bind at 1. unfold assign_dynamic at 1. cbn [outcome final].
  apply (H (set_dynamic false s) eq_refl Hn).
Qed.

End EnoughFuel.

Lemma never_dynamic_stubborn : never_dynamic Scenario.stubborn.
Proof. intros t s Hd. exact Hd. Qed.



(* ================================================================= *)
(** * Further properties *)

(* ----------------------------------------------------------------- *)
(** ** The observer's filter and the dynamic flag *)

(** X1.  The observer writes to [dynamic] and [captcha_token] only: a
    batch of requests leaves [retried], [retry_times] and [click_timeout]
    alone; a request whose URL names neither provider domain, or neither
    the reload nor the verification endpoint, changes nothing at all, and
    neither does one whose response or response text cannot be had. *)
Theorem observer_touches_shared_fields_only :
  (forall reqs s,
     retried (observe reqs s) = retried s
     /\ retry_times (observe reqs s) = retry_times s
     /\ click_timeout (observe reqs s) = click_timeout s)
  /\ (forall req s,
        (contains "google.com" (url req) = false
         /\ contains "recaptcha.net" (url req) = false)
        \/ (contains "reload" (url req) = false
            /\ contains "userverify" (url req) = false) ->
        request_handler req s = s)
  /\ (forall req s,
        (forall text, response req <> Ok (Some (Ok text))) ->
        request_handler req s = s).
Proof.
  split; [|split].
  - intros reqs s. destruct (observe_frame reqs s) as (H1 & H2 & H3 & _).
    auto.
  - intros req s H. unfold request_handler, url_wanted.
    destruct H as [[-> ->] | [-> ->]]; cbn; [reflexivity|].
    now rewrite orb_true_r.
  - intros req s H. unfold request_handler.
    destruct (url_wanted (url req)); [|reflexivity].
    destruct (response req) as [[[text|e]|]|e]; try reflexivity.
    now contradiction (H text).
Qed.

Lemma observer_touches_shared_fields_only_witness :
  let other := mkRequest "https://example.com/userverify"
                         (Ok (Some (Ok Scenario.success_body))) in
  (contains "google.com" (url other) = false
   /\ contains "recaptcha.net" (url other) = false)
  /\ request_handler other Scenario.holding_token = Scenario.holding_token.
Proof.
  intros other.
  assert (H : contains "google.com" (url other) = false
              /\ contains "recaptcha.net" (url other) = false)
    by (split; reflexivity).
  split; [exact H|].
  exact (proj1 (proj2 observer_touches_shared_fields_only)
               other Scenario.holding_token (or_introl H)).
Defined.

(** X2.  For every request the observer looks at and whose text it can
    read, [dynamic] becomes whether the text contains the word dynamic,
    whatever it was before and whatever happens to the token; a response
    of the reload endpoint never changes [captcha_token], and neither does
    a verification response in which the pattern finds no token field (the
    failed assertion comes after the write to [dynamic]). *)
Theorem observer_sets_dynamic_last_writer_wins
    (req : Request) (text : string) (s : Challenger)
    (Hwanted : url_wanted (url req) = true)
    (Htext : response req = Ok (Some (Ok text))) :
  dynamic (request_handler req s) = contains "dynamic" text
  /\ (contains "userverify" (url req) = false ->
      captcha_token (request_handler req s) = captcha_token s)
  /\ (re_search_uvresp text = None ->
      captcha_token (request_handler req s) = captcha_token s).
Proof.
  unfold request_handler. rewrite Hwanted, Htext. unfold observe_text.
  split; [|split].
  - destruct (_ && _); [destruct (re_search_uvresp text)|]; reflexivity.
  - intros ->. reflexivity.
  - intros ->. destruct (_ && _); reflexivity.
Qed.

Lemma observer_sets_dynamic_last_writer_wins_witness :
  url_wanted (url Scenario.reload_dynamic) = true
  /\ dynamic (request_handler Scenario.reload_dynamic (init None 15)) = true
  /\ captcha_token (request_handler Scenario.reload_dynamic
                                    Scenario.holding_token) = "TOKEN".
Proof.
  split; [reflexivity|].
  destruct (observer_sets_dynamic_last_writer_wins
              Scenario.reload_dynamic ")]}'[rresp,03A,null,120,dynamic]"
              (init None 15) eq_refl eq_refl) as (Hd & _ & _).
  destruct (observer_sets_dynamic_last_writer_wins
              Scenario.reload_dynamic ")]}'[rresp,03A,null,120,dynamic]"
              Scenario.holding_token eq_refl eq_refl) as (_ & Ht & _).
  split; [exact Hd | exact (Ht eq_refl)].
Defined.

(* ----------------------------------------------------------------- *)
(** ** What the token pattern captures *)

Lemma strip_prefix_sound (p s r : string) :
  strip_prefix p s = Some r -> s = p ++ r.
Proof.
  revert s. induction p as [|a p IH]; intros s; cbn [strip_prefix].
  - intros H. now injection H as ->.
  - destruct s as [|b s]; [discriminate|].
    destruct (Ascii.eqb a b) eqn:Hab; [|discriminate].
    apply Ascii.eqb_eq in Hab as ->. intros H. cbn. now rewrite (IH s H).
Qed.

Lemma skip_space_sound (s : string) :
  exists ws, all_space ws = true /\ s = ws ++ skip_space s.
Proof.
  induction s as [|c s (ws & Hws & IH)]; cbn [skip_space].
  - now exists EmptyString.
  - destruct (is_space c) eqn:Hc.
    + exists (String c ws). split.
      * unfold all_space in *. cbn. now rewrite Hc, Hws.
      * cbn. now rewrite <- IH.
    + now exists EmptyString.
Qed.

Lemma span_nonquote_sound (s : string) :
  s = fst (span_nonquote s) ++ snd (span_nonquote s)
  /\ (snd (span_nonquote s) = EmptyString
      \/ exists rest, snd (span_nonquote s) = String dquote rest).
Proof.
  induction s as [|c s [IH1 IH2]]; cbn [span_nonquote].
  - split; [reflexivity | now left].
  - destruct (Ascii.eqb c dquote) eqn:Hc.
    + apply Ascii.eqb_eq in Hc as ->. split; [reflexivity|].
      right. now exists s.
    + destruct (span_nonquote s) as [run rest]. cbn [fst snd] in *.
      split; [cbn; now rewrite <- IH1 | exact IH2].
Qed.

Lemma match_uvresp_here_sound (s tok : string) :
  match_uvresp_here s = Some tok ->
  exists ws1 ws2 post,
    all_space ws1 = true /\ all_space ws2 = true
    /\ s = token_field ws1 ws2 tok ++ post.
Proof.
  unfold match_uvresp_here.
  destruct (strip_prefix uvresp_label s) as [r1|] eqn:H1; [|discriminate].
  apply strip_prefix_sound in H1.
  destruct (skip_space_sound r1) as (ws1 & Hws1 & Hr1).
  destruct (skip_space r1) as [|c r2]; [discriminate|].
  destruct (Ascii.eqb c ","%char) eqn:Hc; [|discriminate].
  apply Ascii.eqb_eq in Hc as ->.
  destruct (skip_space_sound r2) as (ws2 & Hws2 & Hr2).
  destruct (skip_space r2) as [|q r3]; [discriminate|].
  destruct (Ascii.eqb q dquote) eqn:Hq; [|discriminate].
  apply Ascii.eqb_eq in Hq as ->.
  destruct (span_nonquote_sound r3) as [Hr3 Hrest].
  destruct (span_nonquote r3) as [[|t ts] [|x rest]]; try discriminate.
  cbn [fst snd] in *. intros H. injection H as <-.
  destruct Hrest as [Hrest | [rest' Hrest]]; [discriminate|].
  injection Hrest as -> ->.
  exists ws1, ws2, rest'. split; [exact Hws1|]. split; [exact Hws2|].
  rewrite H1, Hr1, Hr2, Hr3. unfold token_field.
  repeat (rewrite ?string_app_assoc; cbn [append]). reflexivity.
Qed.

Lemma prefix_app (p r : string) : String.prefix p (p ++ r) = true.
Proof.
  induction p as [|a p IH]; cbn; [now destruct r|].
  destruct (ascii_dec a a) as [_|Hn]; [exact IH | now contradiction Hn].
Qed.

Lemma contains_app (sub pre r : string) :
  contains sub (pre ++ sub ++ r) = true.
Proof.
  induction pre as [|c pre IH].
  - cbn [append]. destruct (sub ++ r) eqn:E; cbn [contains];
      rewrite <- E, prefix_app; reflexivity.
  - change (String c pre ++ sub ++ r) with (String c (pre ++ sub ++ r)).
    cbn [contains]. rewrite IH. apply orb_true_r.
Qed.

(** X3.  Whatever [re.search] with the token pattern captures is a
    non-empty string without a double quote, and it stands in the text as
    a well-formed labelled field: the quoted label, white space, a comma,
    white space and the quoted token.  A text that does not contain the
    quoted label gives no match. *)
Theorem re_search_uvresp_sound (s : string) :
  (forall tok,
     re_search_uvresp s = Some tok ->
     str_truthy tok = true /\ quote_free tok = true
     /\ exists pre ws1 ws2 post,
          all_space ws1 = true /\ all_space ws2 = true
          /\ s = pre ++ token_field ws1 ws2 tok ++ post)
  /\ (contains uvresp_label s = false -> re_search_uvresp s = None).
Proof.
  assert (Hsound : forall s tok,
            re_search_uvresp s = Some tok ->
            exists pre ws1 ws2 post,
              all_space ws1 = true /\ all_space ws2 = true
              /\ s = pre ++ token_field ws1 ws2 tok ++ post).
  { clear s. intros s tok. induction s as [|c s IH]; cbn [re_search_uvresp].
    - destruct (match_uvresp_here EmptyString) eqn:E; [|discriminate].
      intros H. injection H as ->.
      destruct (match_uvresp_here_sound _ _ E) as (ws1 & ws2 & post & H).
      now exists EmptyString, ws1, ws2, post.
    - destruct (match_uvresp_here (String c s)) eqn:E.
      + intros H. injection H as ->.
        destruct (match_uvresp_here_sound _ _ E) as (ws1 & ws2 & post & H).
        now exists EmptyString, ws1, ws2, post.
      + intros H.
        destruct (IH H) as (pre & ws1 & ws2 & post & H1 & H2 & ->).
        now exists (String c pre), ws1, ws2, post. }
  split.
  - intros tok H. destruct (re_search_uvresp_token s tok H) as [Ht Hq].
    split; [exact Ht|]. split; [exact Hq|]. now apply Hsound.
  - intros Hno. destruct (re_search_uvresp s) as [tok|] eqn:E; [|reflexivity].
    destruct (Hsound s tok E) as (pre & ws1 & ws2 & post & _ & _ & ->).
    unfold token_field in Hno. rewrite !string_app_assoc in Hno.
    now rewrite contains_app in Hno.
Qed.

Lemma re_search_uvresp_sound_witness :
  re_search_uvresp Scenario.success_body = Some "TOKEN"
  /\ str_truthy "TOKEN" = true
  /\ contains uvresp_label "[rresp,03A]" = false
  /\ re_search_uvresp "[rresp,03A]" = None.
Proof.
  assert (H : re_search_uvresp Scenario.success_body = Some "TOKEN")
    by reflexivity.
  split; [exact H|].
  split; [exact (proj1 (proj1 (re_search_uvresp_sound Scenario.success_body)
                              "TOKEN" H))|].
  split; [reflexivity|].
  exact (proj2 (re_search_uvresp_sound "[rresp,03A]") eq_refl).
Defined.

(* ----------------------------------------------------------------- *)
(** ** The way into the challenge *)

Lemma click_checkbox_run (w : World) (s : Challenger) :
  ok_or is_timeout
        (w_click w (clock s) checkbox_frame ".recaptcha-checkbox-border")
  = true ->
  exists b,
    click_checkbox w s
    = mkRun (Ret b) (suspend w s)
            [EClick checkbox_frame ".recaptcha-checkbox-border" (Some 5000)].
Proof.
  intros H. unfold click_checkbox, catch, bind, click, await, ret. cbn.
  destruct (w_click w (clock s) checkbox_frame ".recaptcha-checkbox-border")
    as [[]|e]; cbn in *.
  - now exists true.
  - rewrite H. cbn. now exists false.
Qed.

Lemma check_captcha_visible_timeout (w : World) (s : Challenger) :
  w_wait_for w (clock s) bframe "//strong" = Err TimeoutError ->
  check_captcha_visible w s
  = mkRun (Ret false) (suspend w s) [EWaitFor bframe "//strong" 10000].
Proof.
  intros H. unfold check_captcha_visible, catch, bind, wait_for, await, ret.
  cbn. rewrite H. reflexivity.
Qed.

(** X4.  When the challenge label does not become visible within its ten
    seconds, [solve_recaptcha] returns [False] right after its resets,
    whether the click on the checkbox went through or timed out, and
    whatever the fuel: it reads no prompt, starts no cycle and leaves
    [retried] as it was. *)
Theorem solve_recaptcha_not_visible (w : World) (fuel : nat) (s : Challenger)
    (Hclick : ok_or is_timeout
                (w_click w (clock s) checkbox_frame
                         ".recaptcha-checkbox-border") = true)
    (Hwait : w_wait_for w (S (clock s)) bframe "//strong"
             = Err TimeoutError) :
  let r := solve_recaptcha w fuel s in
  outcome r = Ret (VBool false)
  /\ trace r
     = [ESetDynamic false; ESetCaptchaToken EmptyString;
        EClick checkbox_frame ".recaptcha-checkbox-border" (Some 5000);
        EWaitFor bframe "//strong" 10000;
        EPrint "[ERROR] reCaptcha Challenge is not visible."]
  /\ retried (final r) = retried s.
Proof.
  intros r. unfold r. rewrite solve_recaptcha_unfold.
  set (s0 := set_captcha_token EmptyString (set_dynamic false s)).
  destruct (click_checkbox_run w s0 Hclick) as [b Hb].
  assert (Hvis : check_captcha_visible w (suspend w s0)
                 = mkRun (Ret false) (suspend w (suspend w s0))
                         [EWaitFor bframe "//strong" 10000]).
  { apply check_captcha_visible_timeout.
    destruct (suspend_frame w s0) as (_ & _ & _ & ->). exact Hwait. }
  assert (Hopen : open_challenge w fuel s0
                  = mkRun (Ret (VBool false)) (suspend w (suspend w s0))
                      [EClick checkbox_frame ".recaptcha-checkbox-border"
                              (Some 5000);
                       EWaitFor bframe "//strong" 10000;
                       EPrint "[ERROR] reCaptcha Challenge is not visible."]).
  { unfold open_challenge.
    rewrite (bind_ret_run _ _ s0 b) by now rewrite Hb.
    rewrite Hb. cbn [final trace].
    rewrite (bind_ret_run _ _ (suspend w s0) false) by now rewrite Hvis.
    rewrite Hvis. reflexivity. }
  unfold bind, assign_dynamic, assign_captcha_token.
  cbn [outcome final trace]. fold s0. rewrite Hopen.
  cbn [outcome final trace]. repeat split.
  destruct (suspend_frame w (suspend w s0)) as (-> & _).
  destruct (suspend_frame w s0) as (-> & _). reflexivity.
Qed.

Lemma solve_recaptcha_not_visible_witness :
  let w := mkWorld (fun _ => []) (fun _ _ _ => Err TimeoutError)
                   (fun _ _ _ => Err TimeoutError)
                   (fun _ _ _ => Ok (Some "cars")) (fun _ _ _ => Ok 9%nat)
                   (fun _ _ => Ok "TOKEN") (fun _ => Ok [])
                   (fun _ _ _ => Ok tt) (fun _ _ => Ok tt)
                   Scenario.detect_nonempty in
  outcome (solve_recaptcha w 0 (init None 15)) = Ret (VBool false)
  /\ retried (final (solve_recaptcha w 0 (init None 15))) = 0.
Proof.
  intros w.
  destruct (solve_recaptcha_not_visible w 0 (init None 15) eq_refl eq_refl)
    as (Ho & _ & Hr).
  split; [exact Ho | exact Hr].
Defined.

Lemma counter_untouched_catch {A} (p : exn -> bool) (m h : M A) :
  sat (@counter_untouched) m -> sat (@counter_untouched) h ->
  sat (@counter_untouched) (catch p m h).
Proof.
  intros Hm Hh s. specialize (Hm s). unfold catch.
  destruct (outcome (m s)) as [a| e |]; try exact Hm.
  destruct (p e); [|exact Hm].
  destruct Hm as [H1 H2], (Hh (final (m s))) as [H1' H2'].
  split; cbn; congruence.
Qed.

Lemma counter_untouched_frame_did_not_load (w : World) :
  sat (@counter_untouched) (frame_did_not_load w).
Proof.
  apply sat_frame_did_not_load.
  - intros A a s. now apply counter_untouched_idle.
  - intros A B. apply counter_untouched_bind.
  - intros A p m h _. apply counter_untouched_catch.
  - intros A ev answer _ _. apply counter_untouched_await.
  - intros msg s. now apply counter_untouched_idle.
Qed.

(** [check_result] looks at the clock only, not at the fields. *)
Lemma check_result_outcome_clock (w : World) (s1 s2 : Challenger) :
  clock s1 = clock s2 ->
  outcome (check_result w s1) = outcome (check_result w s2).
Proof.
  intros Hc. unfold check_result, catch, bind, evaluate, await, ret. cbn.
  rewrite Hc.
  destruct (w_evaluate w (clock s2) "grecaptcha.getResponse()") as [v|e];
    [reflexivity|]. cbn.
  destruct (is_playwright e); [|reflexivity]. cbn. rewrite Hc.
  destruct (w_evaluate w (S (clock s2))
              "grecaptcha.enterprise.getResponse()") as [v|e'];
    [reflexivity|].
  cbn. destruct (is_playwright e'); reflexivity.
Qed.

Lemma handle_recaptcha_read_raises (w : World) (fuel : nat) (s : Challenger)
    (e : exn) :
  w_text_content w (clock s) bframe "//strong" = Err e ->
  handle_recaptcha w (S fuel) s
  = if is_timeout e
    then mkRun (outcome (frame_did_not_load w (suspend w s)))
               (final (frame_did_not_load w (suspend w s)))
               (ETextContent bframe "//strong"
                :: trace (frame_did_not_load w (suspend w s)))
    else mkRun (Raise e) (suspend w s) [ETextContent bframe "//strong"].
Proof.
  intros He. cbn [handle_recaptcha].
  set (m := bind (read_prompt w) (fun prompt => ret (inl prompt))).
  set (h := bind (frame_did_not_load w) (fun v => ret (inr v))).
  assert (Hm : m s = mkRun (Raise e) (suspend w s)
                           [ETextContent bframe "//strong"]).
  { unfold m, read_prompt, text_content.
    rewrite (bind_raise_run _ _ s e);
      now rewrite (bind_await_err w _ _ _ s e He). }
  unfold bind, catch. rewrite Hm. cbn [outcome final trace].
  destruct (is_timeout e); [|reflexivity].
  unfold h, bind, ret.
  destruct (outcome (frame_did_not_load w (suspend w s))) as [v| e' |];
    cbn [outcome final trace]; rewrite ?app_nil_r; reflexivity.
Qed.

Lemma handle_recaptcha_timeout_run (w : World) (fuel : nat) (s : Challenger) :
  w_text_content w (clock s) bframe "//strong" = Err TimeoutError ->
  handle_recaptcha w (S fuel) s
  = mkRun (outcome (frame_did_not_load w (suspend w s)))
          (final (frame_did_not_load w (suspend w s)))
          (ETextContent bframe "//strong"
           :: trace (frame_did_not_load w (suspend w s))).
Proof.
  intros Ht. now rewrite (handle_recaptcha_read_raises w fuel s _ Ht).
Qed.

(** X5.  When the prompt read times out, the cycle asks the page's
    accessors and nothing else: it returns the accessor's token when that is
    non-empty and [False] otherwise, passes on what [check_result] raises,
    does not look at [captcha_token], clicks nothing, starts no further
    cycle and leaves [retried] as it was.  Any other error of the prompt
    read leaves the cycle as it is. *)
Theorem handle_recaptcha_frame_missing (w : World) (fuel : nat)
    (s : Challenger) :
  (w_text_content w (clock s) bframe "//strong" = Err TimeoutError ->
   let r := handle_recaptcha w (S fuel) s in
   outcome r
   = match outcome (check_result w (suspend w s)) with
     | Ret (Some t) => if str_truthy t then Ret (VStr t) else Ret (VBool false)
     | Ret None => Ret (VBool false)
     | Raise e => Raise e
     | OutOfFuel => OutOfFuel
     end
   /\ (forall t,
         outcome (handle_recaptcha w (S fuel) (set_captcha_token t s))
         = outcome r)
   /\ retried (final r) = retried s
   /\ count is_text_content (trace r) = 1%nat
   /\ count (fun ev => match ev with EClick _ _ _ => true | _ => false end)
            (trace r) = 0%nat)
  /\ (forall e,
        w_text_content w (clock s) bframe "//strong" = Err e ->
        is_timeout e = false ->
        handle_recaptcha w (S fuel) s
        = mkRun (Raise e) (suspend w s) [ETextContent bframe "//strong"]).
Proof.
  assert (Hout : forall s',
            outcome (frame_did_not_load w s')
            = match outcome (check_result w s') with
              | Ret (Some t) =>
                  if str_truthy t then Ret (VStr t) else Ret (VBool false)
              | Ret None => Ret (VBool false)
              | Raise e => Raise e
              | OutOfFuel => OutOfFuel
              end).
  { intros s'. unfold frame_did_not_load, bind.
    destruct (outcome (check_result w s')) as [[t|]| e |]; cbn;
      try reflexivity.
    destruct (str_truthy t); reflexivity. }
  split.
  - intros Ht r.
    assert (Hr : r = mkRun (outcome (frame_did_not_load w (suspend w s)))
                       (final (frame_did_not_load w (suspend w s)))
                       (ETextContent bframe "//strong"
                        :: trace (frame_did_not_load w (suspend w s))))
      by now apply handle_recaptcha_timeout_run.
    split; [rewrite Hr; cbn [outcome]; apply Hout|].
    split.
    { intros t. rewrite Hr, handle_recaptcha_timeout_run by exact Ht.
      cbn [outcome]. rewrite !Hout.
      now rewrite (check_result_outcome_clock w
                     (suspend w (set_captcha_token t s)) (suspend w s)). }
    rewrite Hr. cbn [final trace]. split.
    { destruct (counter_untouched_frame_did_not_load w (suspend w s))
        as [-> _].
      now destruct (suspend_frame w s) as (-> & _). }
    unfold frame_did_not_load, check_result, catch, bind, evaluate, await,
      ret, print. cbn.
    destruct (w_evaluate w (S (clock s)) "grecaptcha.getResponse()")
      as [[|c v]|e]; cbn; [split; reflexivity..|].
    destruct (is_playwright e); cbn; [|split; reflexivity].
    destruct (w_evaluate w (S (S (clock s)))
                "grecaptcha.enterprise.getResponse()")
      as [[|c v]|e']; cbn; [split; reflexivity..|].
    destruct (is_playwright e'); cbn; split; reflexivity.
  - intros e He Hne.
    now rewrite (handle_recaptcha_read_raises w fuel s e He), Hne.
Qed.

Lemma handle_recaptcha_frame_missing_witness :
  let s := final (suspend_probe Scenario.captured_then_gone) in
  w_text_content Scenario.captured_then_gone (clock s) bframe "//strong"
  = Err TimeoutError
  /\ retried (final (handle_recaptcha Scenario.captured_then_gone 1 s))
     = retried s.
Proof.
  intros s.
  assert (H : w_text_content Scenario.captured_then_gone (clock s) bframe
                             "//strong" = Err TimeoutError) by reflexivity.
  split; [exact H|].
  exact (proj1 (proj2 (proj2 (proj1 (handle_recaptcha_frame_missing
                                       Scenario.captured_then_gone 0 s) H)))).
Defined.

(* ----------------------------------------------------------------- *)
(** ** The wait for the token *)

Lemma bind_fuel_run {A B} (m : M A) (k : A -> M B) (s : Challenger) :
  outcome (m s) = OutOfFuel ->
  bind m k s = mkRun OutOfFuel (final (m s)) (trace (m s)).
Proof. intros H. unfold bind. now rewrite H. Qed.

(** [check_result] evaluates the standard accessor once, never pauses and
    never gives up for lack of fuel. *)
Lemma check_result_trace (w : World) (s : Challenger) :
  count (is_wait_for_timeout 1000) (trace (check_result w s)) = 0%nat
  /\ count (is_evaluate "grecaptcha.getResponse()")
           (trace (check_result w s)) = 1%nat
  /\ outcome (check_result w s) <> OutOfFuel.
Proof.
  unfold check_result, catch, bind, evaluate, await, ret. cbn.
  destruct (w_evaluate w (clock s) "grecaptcha.getResponse()") as [v|e];
    cbn; [repeat split; discriminate|].
  destruct (is_playwright e); cbn; [|repeat split; discriminate].
  destruct (w_evaluate w (S (clock s))
              "grecaptcha.enterprise.getResponse()") as [v|e'];
    cbn; [repeat split; discriminate|].
  destruct (is_playwright e'); cbn; repeat split; discriminate.
Qed.

Lemma wait_for_token_step (w : World) (k : nat) (s : Challenger) :
  wait_for_token w (S k) s
  = if str_truthy (captcha_token s)
    then mkRun (Ret (Some (captcha_token s))) s []
    else bind (check_result w)
              (fun r => if opt_truthy r then ret r
                        else bind (wait_for_timeout w 1000)
                                  (fun _ => wait_for_token w k)) s.
Proof.
  cbn [wait_for_token]. unfold bind at 1. unfold get. cbn [outcome final trace].
  destruct (str_truthy (captcha_token s)); cbn [app]; [reflexivity|].
  now rewrite run_eta.
Qed.

Lemma wait_for_token_counts (w : World) (k : nat) :
  forall s,
    let r := wait_for_token w k s in
    (forall o, outcome r = Ret o -> token_or_none o)
    /\ (count (is_wait_for_timeout 1000) (trace r) <= k)%nat
    /\ (count (is_evaluate "grecaptcha.getResponse()") (trace r) <= k)%nat
    /\ (outcome r = Ret None ->
        count (is_wait_for_timeout 1000) (trace r) = k).
Proof.
  induction k as [|k IH]; intros s r; unfold r.
  - cbn. repeat split; try lia. intros o H. now injection H as <-.
  - rewrite wait_for_token_step.
    destruct (str_truthy (captcha_token s)) eqn:Htok.
    + cbn. repeat split; try lia; [|discriminate].
      intros o H. injection H as <-. exact Htok.
    + destruct (check_result_trace w s) as (Hw & He & Hfuel).
      destruct (outcome (check_result w s)) as [o| e |] eqn:Hc.
      * rewrite (bind_ret_run _ _ s o Hc).
        destruct (opt_truthy o) eqn:Ho.
        { cbn [outcome trace ret]. rewrite app_nil_r, Hw, He.
          repeat split; try lia.
          - intros o' H. injection H as <-. destruct o; [exact Ho | exact I].
          - intros H. injection H as ->. discriminate Ho. }
        set (s1 := final (check_result w s)).
        destruct (w_wait_for_timeout w (clock s1) 1000) as [[]|e] eqn:Hwt.
        { unfold wait_for_timeout.
          rewrite (bind_await_ok w _ _ _ s1 tt Hwt).
          cbn [outcome trace].
          destruct (IH (suspend w s1)) as (H1 & H2 & H3 & H4).
          rewrite !count_app, !count_cons, Hw, He.
          cbn [is_wait_for_timeout is_evaluate Z.eqb Pos.eqb].
          repeat split; try lia; [exact H1|].
          intros H. specialize (H4 H). lia. }
        { unfold wait_for_timeout.
          rewrite (bind_await_err w _ _ _ s1 e Hwt).
          cbn [outcome trace].
          rewrite !count_app, !count_cons, Hw, He.
          cbn [is_wait_for_timeout is_evaluate Z.eqb Pos.eqb count filter
               List.length].
          repeat split; try lia; discriminate. }
      * rewrite (bind_raise_run _ _ s e Hc). cbn [outcome trace].
        rewrite Hw, He. repeat split; try lia; discriminate.
      * now contradiction Hfuel.
Qed.

(** X6.  The wait for the token returns the token the observer has
    captured without asking the page; otherwise it asks the page's
    accessors, at most once per poll, pausing one second after each poll
    that gave nothing.  What it returns is a non-empty token or nothing, and
    it returns nothing only after all its polls and as many pauses. *)
Theorem wait_for_token_polls (w : World) (k : nat) (s : Challenger) :
  let r := wait_for_token w k s in
  (str_truthy (captcha_token s) = true ->
   wait_for_token w (S k) s = mkRun (Ret (Some (captcha_token s))) s [])
  /\ (forall o, outcome r = Ret o -> token_or_none o)
  /\ (count (is_wait_for_timeout 1000) (trace r) <= k)%nat
  /\ (count (is_evaluate "grecaptcha.getResponse()") (trace r) <= k)%nat
  /\ (outcome r = Ret None ->
      count (is_wait_for_timeout 1000) (trace r) = k).
Proof.
  intros r. split.
  - intros H. now rewrite wait_for_token_step, H.
  - apply wait_for_token_counts.
Qed.

Lemma wait_for_token_polls_witness :
  str_truthy (captcha_token Scenario.holding_token) = true
  /\ wait_for_token Scenario.stubborn 5 Scenario.holding_token
     = mkRun (Ret (Some "TOKEN")) Scenario.holding_token []
  /\ outcome (wait_for_token Scenario.stubborn 5 (init None 15)) = Ret None
  /\ count (is_wait_for_timeout 1000)
           (trace (wait_for_token Scenario.stubborn 5 (init None 15)))
     = 5%nat.
Proof.
  assert (H : str_truthy (captcha_token Scenario.holding_token) = true)
    by reflexivity.
  assert (Hn : outcome (wait_for_token Scenario.stubborn 5 (init None 15))
               = Ret None) by reflexivity.
  split; [exact H|].
  split; [exact (proj1 (wait_for_token_polls Scenario.stubborn 4
                          Scenario.holding_token) H)|].
  split; [exact Hn|].
  exact (proj2 (proj2 (proj2 (proj2 (wait_for_token_polls Scenario.stubborn 5
                                       (init None 15))))) Hn).
Defined.

(* ----------------------------------------------------------------- *)
(** ** The clicks on the tiles *)

Lemma click_events_count (timeout : option Z) (coordinates : list (Z * Z)) :
  count is_mouse_click (click_events timeout coordinates)
  = List.length coordinates.
Proof.
  induction coordinates as [|[x y] rest IH]; [reflexivity|].
  cbn [click_events List.length]. rewrite count_app, count_cons, IH.
  cbn [is_mouse_click]. unfold click_pause.
  destruct timeout as [t|]; [destruct (t =? 0)|]; reflexivity.
Qed.

Lemma bind_get_run {B} (k : Challenger -> M B) (s : Challenger) :
  bind get k s = k s s.
Proof. unfold bind, get. cbn. apply run_eta. Qed.

Lemma bind_ret_left {A B} (a : A) (k : A -> M B) (s : Challenger) :
  bind (ret a) k s = k a s.
Proof. unfold bind, ret. cbn. apply run_eta. Qed.

(** With a page that takes the clicks and the pauses, the loop over the
    coordinates clicks each one in order and pauses after each click when
    [click_timeout] is set and not zero. *)
Lemma click_coordinates_run (w : World)
    (Hmouse : forall t x y, w_mouse_click w t x y = Ok tt)
    (Hpause : forall t ms, w_wait_for_timeout w t ms = Ok tt)
    (coordinates : list (Z * Z)) :
  forall s,
    outcome (click_coordinates w coordinates s) = Ret tt
    /\ trace (click_coordinates w coordinates s)
       = click_events (click_timeout s) coordinates
    /\ click_timeout (final (click_coordinates w coordinates s))
       = click_timeout s
    /\ retried (final (click_coordinates w coordinates s)) = retried s.
Proof.
  induction coordinates as [|[x y] rest IH]; intros s;
    cbn [click_coordinates click_events].
  - now cbn.
  - unfold mouse_click.
    rewrite (bind_await_ok w _ _ _ s tt (Hmouse _ _ _)).
    cbn [outcome final trace].
    destruct (suspend_frame w s) as (Hr1 & _ & Hc1 & _).
    rewrite bind_get_run, Hc1.
    assert (Hstep : forall s1,
              click_timeout s1 = click_timeout s -> retried s1 = retried s ->
              let r := click_coordinates w rest s1 in
              outcome r = Ret tt
              /\ trace r = click_events (click_timeout s) rest
              /\ click_timeout (final r) = click_timeout s
              /\ retried (final r) = retried s).
    { intros s1 Hc Hr. destruct (IH s1) as (H1 & H2 & H3 & H4).
      cbn zeta. rewrite H1, H2, H3, H4, Hc, Hr. auto. }
    unfold click_pause.
    destruct (click_timeout s) as [t|] eqn:Ht; [destruct (t =? 0) eqn:H0|].
    + rewrite bind_ret_left. cbn [app].
      destruct (Hstep (suspend w s) Hc1 Hr1) as (H1 & H2 & H3 & H4).
      rewrite H1, H2, H3, H4. auto.
    + unfold wait_for_timeout.
      rewrite (bind_await_ok w _ _ _ (suspend w s) tt (Hpause _ _)).
      cbn [outcome final trace app].
      destruct (suspend_frame w (suspend w s)) as (Hr2 & _ & Hc2 & _).
      destruct (Hstep (suspend w (suspend w s))) as (H1 & H2 & H3 & H4);
        [congruence | congruence|].
      rewrite H1, H2, H3, H4. auto.
    + rewrite bind_ret_left. cbn [app].
      destruct (Hstep (suspend w s) Hc1 Hr1) as (H1 & H2 & H3 & H4).
      rewrite H1, H2, H3, H4. auto.
Qed.

Lemma bind_detect_run {B} (w : World) (prompt : string) (image : Image)
    (area_captcha : bool) (k : list bool * list (Z * Z) -> M B)
    (s : Challenger) :
  bind (detect w prompt image area_captcha) k s
  = mkRun (outcome (k (w_detect w prompt image area_captcha) s))
          (final (k (w_detect w prompt image area_captcha) s))
          (EDetect prompt area_captcha
           :: trace (k (w_detect w prompt image area_captcha) s)).
Proof. reflexivity. Qed.

(** X7.  With a page that takes the screenshot, the clicks and the
    pauses: when the detector reports a match, [detect_tiles] clicks exactly
    the coordinates it got, in their order, pausing for [click_timeout]
    after each click when that is set and not zero, and returns [True],
    with no retry; when the detector reports no match on a verify pass, it
    returns [False] and clicks nothing. *)
Theorem detect_tiles_clicks_what_was_found (w : World)
    (Hmouse : forall t x y, w_mouse_click w t x y = Ok tt)
    (Hpause : forall t ms, w_wait_for_timeout w t ms = Ok tt)
    (rec : M PyVal) (prompt : string) (area_captcha verify : bool)
    (frame : string) (s : Challenger) (image : Image)
    (Hshot : w_screenshot w (clock s) = Ok image) :
  let found := w_detect w prompt image area_captcha in
  let r := detect_tiles w rec prompt area_captcha verify frame s in
  (existsb (fun b => b) (fst found) = true ->
   outcome r = Ret (VBool true)
   /\ trace r
      = EScreenshot :: EDetect prompt area_captcha
        :: click_events (click_timeout s) (snd found)
   /\ count is_mouse_click (trace r) = List.length (snd found)
   /\ retried (final r) = retried s)
  /\ (existsb (fun b => b) (fst found) = false -> verify = true ->
      r = mkRun (Ret (VBool false)) (suspend w s)
                [EScreenshot; EDetect prompt area_captcha]).
Proof.
  intros found r. unfold r, detect_tiles, screenshot.
  rewrite (bind_await_ok w _ _ _ s image Hshot), bind_detect_run.
  cbn [outcome final trace]. fold found. split.
  - intros Hfound. rewrite Hfound. cbn [negb].
    destruct (suspend_frame w s) as (Hr & _ & Hc & _).
    destruct (click_coordinates_run w Hmouse Hpause (snd found) (suspend w s))
      as (H1 & H2 & H3 & H4).
    rewrite (bind_ret_run _ _ (suspend w s) tt H1).
    cbn [outcome final trace ret]. rewrite app_nil_r, H2, H4, Hc, Hr.
    repeat split.
    rewrite !count_cons. cbn [is_mouse_click]. apply click_events_count.
  - intros Hfound ->. rewrite Hfound. reflexivity.
Qed.

Lemma detect_tiles_clicks_what_was_found_witness :
  let s := mkChallenger (Some 300) 15 0 false EmptyString 0 in
  trace (detect_tiles Scenario.stubborn (ret (VBool false)) "cars" false
                      false bframe s)
  = [EScreenshot; EDetect "cars" false; EMouseClick 120 240;
     EWaitForTimeout 300]
  /\ detect_tiles Scenario.blind (ret (VBool false)) "cars" false true
                  bframe s
     = mkRun (Ret (VBool false)) (suspend Scenario.blind s)
             [EScreenshot; EDetect "cars" false].
Proof.
  intros s.
  destruct (detect_tiles_clicks_what_was_found Scenario.stubborn
              (fun _ _ _ => eq_refl) (fun _ _ => eq_refl)
              (ret (VBool false)) "cars" false false bframe s
              Scenario.one_byte eq_refl) as [Hfound _].
  destruct (detect_tiles_clicks_what_was_found Scenario.blind
              (fun _ _ _ => eq_refl) (fun _ _ => eq_refl)
              (ret (VBool false)) "cars" false true bframe s
              [] eq_refl) as [_ Hnone].
  split.
  - exact (proj1 (proj2 (Hfound eq_refl))).
  - exact (Hnone eq_refl eq_refl).
Defined.

(* ----------------------------------------------------------------- *)
(** ** The guards of the helpers *)

(** X8.  In any world, the helpers do not let out what they guard
    against: [check_result] raises no Playwright error (a timeout is one),
    and [check_captcha_visible], [click_checkbox] and the submit of the
    challenge raise no timeout.  Any other exception of a guarded call
    passes through: the helper raises it, also when it comes from the
    second call that follows a suppressed first one. *)
Theorem helpers_keep_their_guards (w : World) (s : Challenger) :
  (forall e, outcome (check_result w s) = Raise e -> is_playwright e = false)
  /\ (forall e, outcome (check_captcha_visible w s) = Raise e ->
                is_timeout e = false)
  /\ (forall e, outcome (click_checkbox w s) = Raise e ->
                is_timeout e = false)
  /\ (forall frame e, outcome (submit_challenge w frame s) = Raise e ->
                      is_timeout e = false)
  /\ (forall e,
        w_evaluate w (clock s) "grecaptcha.getResponse()" = Err e ->
        is_playwright e = false ->
        outcome (check_result w s) = Raise e)
  /\ (forall e0 e,
        w_evaluate w (clock s) "grecaptcha.getResponse()" = Err e0 ->
        is_playwright e0 = true ->
        w_evaluate w (S (clock s)) "grecaptcha.enterprise.getResponse()"
        = Err e ->
        is_playwright e = false ->
        outcome (check_result w s) = Raise e)
  /\ (forall e,
        w_wait_for w (clock s) bframe "//strong" = Err e ->
        is_timeout e = false ->
        outcome (check_captcha_visible w s) = Raise e)
  /\ (forall e,
        w_click w (clock s) checkbox_frame ".recaptcha-checkbox-border"
        = Err e ->
        is_timeout e = false ->
        outcome (click_checkbox w s) = Raise e)
  /\ (forall frame e,
        w_click w (clock s) frame "#recaptcha-verify-button" = Err e ->
        is_timeout e = false ->
        outcome (submit_challenge w frame s) = Raise e)
  /\ (forall frame e0 e,
        w_click w (clock s) frame "#recaptcha-verify-button" = Err e0 ->
        is_timeout e0 = true ->
        w_wait_for w (S (clock s)) bframe "//strong" = Err e ->
        is_timeout e = false ->
        outcome (submit_challenge w frame s) = Raise e).
Proof.
  split; [|split; [|split; [|split; [|split; [|split; [|split;
    [|split; [|split]]]]]]]].
  - unfold check_result, catch, bind, evaluate, await, ret. cbn.
    destruct (w_evaluate w (clock s) "grecaptcha.getResponse()") as [v|e0];
      cbn; [discriminate|].
    destruct (is_playwright e0) eqn:H0; cbn.
    + destruct (w_evaluate w (S (clock s))
                  "grecaptcha.enterprise.getResponse()") as [v|e1];
        cbn; [discriminate|].
      destruct (is_playwright e1) eqn:H1; cbn; [discriminate|].
      intros e H. now injection H as <-.
    + intros e H. now injection H as <-.
  - unfold check_captcha_visible, catch, bind, wait_for, await, ret. cbn.
    destruct (w_wait_for w (clock s) bframe "//strong") as [[]|e0];
      cbn; [discriminate|].
    destruct (is_timeout e0) eqn:H0; cbn; [discriminate|].
    intros e H. now injection H as <-.
  - unfold click_checkbox, catch, bind, click, await, ret. cbn.
    destruct (w_click w (clock s) checkbox_frame
                      ".recaptcha-checkbox-border") as [[]|e0];
      cbn; [discriminate|].
    destruct (is_timeout e0) eqn:H0; cbn; [discriminate|].
    intros e H. now injection H as <-.
  - intros frame.
    unfold submit_challenge, check_captcha_visible, catch, bind, click,
      wait_for, await, ret, print. cbn.
    destruct (w_click w (clock s) frame "#recaptcha-verify-button")
      as [[]|e0]; cbn; [discriminate|].
    destruct (is_timeout e0) eqn:H0; cbn.
    + destruct (w_wait_for w (S (clock s)) bframe "//strong") as [[]|e1];
        cbn; [discriminate|].
      destruct (is_timeout e1) eqn:H1; cbn; [discriminate|].
      intros e H. now injection H as <-.
    + intros e H. now injection H as <-.
  - intros e He Hp.
    unfold check_result, catch, bind, evaluate, await, ret. cbn.
    rewrite He. cbn. now rewrite Hp.
  - intros e0 e He0 Hp0 He Hp.
    unfold check_result, catch, bind, evaluate, await, ret. cbn.
    rewrite He0. cbn. rewrite Hp0. cbn. rewrite He. cbn. now rewrite Hp.
  - intros e He Hp.
    unfold check_captcha_visible, catch, bind, wait_for, await, ret. cbn.
    rewrite He. cbn. now rewrite Hp.
  - intros e He Hp.
    unfold click_checkbox, catch, bind, click, await, ret. cbn.
    rewrite He. cbn. now rewrite Hp.
  - intros frame e He Hp.
    unfold submit_challenge, check_captcha_visible, catch, bind, click,
      wait_for, await, ret, print. cbn.
    rewrite He. cbn. now rewrite Hp.
  - intros frame e0 e He0 Hp0 He Hp.
    unfold submit_challenge, check_captcha_visible, catch, bind, click,
      wait_for, await, ret, print. cbn.
    rewrite He0. cbn. rewrite Hp0. cbn. rewrite He. cbn. now rewrite Hp.
Qed.

Lemma helpers_keep_their_guards_witness :
  let w := mkWorld (fun _ => []) (fun _ _ _ => Err TimeoutError)
                   (fun _ _ _ => Err PlaywrightError)
                   (fun _ _ _ => Ok (Some "cars")) (fun _ _ _ => Ok 9%nat)
                   (fun t _ => match t with
                               | O => Err PlaywrightError
                               | _ => Err AssertionError
                               end)
                   (fun _ => Ok [])
                   (fun _ _ _ => Ok tt) (fun _ _ => Ok tt)
                   Scenario.detect_nonempty in
  outcome (check_result w (init None 15)) = Raise AssertionError
  /\ is_playwright AssertionError = false
  /\ outcome (submit_challenge w bframe (init None 15))
     = Raise PlaywrightError
  /\ is_timeout PlaywrightError = false
  /\ outcome (click_checkbox w (init None 15)) = Ret false.
Proof.
  intros w.
  destruct (helpers_keep_their_guards w (init None 15))
    as (Hc & _ & _ & Hs & _ & Hc2 & _ & _ & _ & Hs2).
  assert (H1 : outcome (check_result w (init None 15)) = Raise AssertionError)
    by exact (Hc2 PlaywrightError AssertionError eq_refl eq_refl eq_refl
                  eq_refl).
  assert (H2 : outcome (submit_challenge w bframe (init None 15))
               = Raise PlaywrightError)
    by exact (Hs2 bframe TimeoutError PlaywrightError eq_refl eq_refl eq_refl
                  eq_refl).
  split; [exact H1|]. split; [exact (Hc _ H1)|].
  split; [exact H2|]. split; [exact (Hs _ _ H2) | reflexivity].
Defined.

(* ----------------------------------------------------------------- *)
(** ** The configuration *)

Lemma config_kept_step {A} (s : Challenger) (r : Run A) :
  click_timeout (final r) = click_timeout s ->
  retry_times (final r) = retry_times s ->
  config_kept s r.
Proof. intros H1 H2. now split. Qed.

Lemma config_kept_bind {A B} (m : M A) (k : A -> M B) :
  sat (@config_kept) m -> (forall a, sat (@config_kept) (k a)) ->
  sat (@config_kept) (bind m k).
Proof.
  intros Hm Hk s. specialize (Hm s). unfold bind.
  destruct (outcome (m s)) as [a| e |]; try exact Hm.
  destruct Hm as [H1 H2], (Hk a (final (m s))) as [H1' H2'].
  split; cbn; congruence.
Qed.

Lemma config_kept_catch {A} (p : exn -> bool) (m h : M A) :
  sat (@config_kept) m -> sat (@config_kept) h ->
  sat (@config_kept) (catch p m h).
Proof.
  intros Hm Hh s. specialize (Hm s). unfold catch.
  destruct (outcome (m s)) as [a| e |]; try exact Hm.
  destruct (p e); [|exact Hm].
  destruct Hm as [H1 H2], (Hh (final (m s))) as [H1' H2'].
  split; cbn; congruence.
Qed.

Lemma config_kept_await (w : World) {A} (ev : Event) (answer : nat -> Res A) :
  sat (@config_kept) (await w ev answer).
Proof.
  intros s. destruct (suspend_frame w s) as (_ & HL & Hc & _). now split.
Qed.

Lemma config_kept_increment {A} (k : M A) :
  sat (@config_kept) k ->
  sat (@config_kept)
      (bind incr_retried
            (fun _ => bind get
               (fun s => if retried s >=? retry_times s
                         then raise (RecursionError (retry_times s))
                         else k))).
Proof.
  intros Hk. apply config_kept_bind; [intros s; now split | intros _].
  apply config_kept_bind; [intros s; now split | intros s0].
  destruct (retried s0 >=? retry_times s0); [intros s; now split | exact Hk].
Qed.

Lemma config_kept_retry (w : World) (rec : M PyVal) (frame : string) :
  sat (@config_kept) rec -> sat (@config_kept) (retry w rec frame false).
Proof.
  intros Hrec. unfold retry. apply config_kept_increment.
  apply config_kept_bind; [intros s; now split | intros _].
  apply config_kept_bind; [intros s; now split | intros _].
  apply config_kept_bind; [|intros _; exact Hrec].
  apply config_kept_bind; [intros s; now split | intros _].
  apply config_kept_await.
Qed.

Lemma config_kept_open_challenge (w : World) (fuel : nat) :
  sat (@config_kept) (open_challenge w fuel).
Proof.
  apply sat_open_challenge.
  - intros A a s. now split.
  - intros A B. apply config_kept_bind.
  - intros A p m h _. apply config_kept_catch.
  - intros A ev answer _ _. apply config_kept_await.
  - intros s. now split.
  - intros msg s. now split.
  - intros prompt image area s. now split.
  - intros A s. now split.
  - intros A msg s. now split.
  - intros rec frame. apply config_kept_retry.
  - intros rec Hrec. unfold retry_after_wait.
    now apply config_kept_increment.
Qed.

(** X9.  Nothing changes the configuration of an instance: after a call
    of [solve_recaptcha], however it ends and whatever the observer saw,
    [click_timeout] and [retry_times] are what they were. *)
Theorem solve_recaptcha_keeps_configuration (w : World) (fuel : nat)
    (s : Challenger) :
  click_timeout (final (solve_recaptcha w fuel s)) = click_timeout s
  /\ retry_times (final (solve_recaptcha w fuel s)) = retry_times s.
Proof.
  rewrite solve_recaptcha_unfold.
  apply (config_kept_bind (assign_dynamic false)); [intros s'; now split|].
  intros _. apply config_kept_bind; [intros s'; now split | intros _].
  apply config_kept_open_challenge.
Qed.

(* ----------------------------------------------------------------- *)
(** ** How often the challenge is reloaded *)

Lemma reloads_paid_quiet {A} (s : Challenger) (r : Run A) :
  retry_times (final r) = retry_times s ->
  retried (final r) = retried s ->
  count (is_click_on "#recaptcha-reload-button") (trace r) = 0%nat ->
  reloads_paid s r.
Proof.
  intros HL Hr Hc. unfold reloads_paid, limit_reached.
  rewrite HL, Hr, Hc. cbn. repeat split; lia.
Qed.

Lemma reloads_paid_then {A B} (s : Challenger) (r1 : Run A) (r2 r : Run B) :
  reloads_paid s r1 -> reloads_paid (final r1) r2 ->
  final r = final r2 -> trace r = (trace r1 ++ trace r2)%list ->
  reloads_paid s r.
Proof.
  unfold reloads_paid, limit_reached.
  intros (HL1 & Hm1 & Hc1 & Hlim1) (HL2 & Hm2 & Hc2 & Hlim2) Hf Ht.
  rewrite Hf, Ht, count_app, Nat2Z.inj_add. rewrite HL1 in *.
  repeat split; lia.
Qed.

Lemma reloads_paid_bind {A B} (m : M A) (k : A -> M B) :
  sat (@reloads_paid) m -> (forall a, sat (@reloads_paid) (k a)) ->
  sat (@reloads_paid) (bind m k).
Proof.
  intros Hm Hk s. specialize (Hm s). unfold bind.
  destruct (outcome (m s)) as [a| e |]; try exact Hm.
  eapply reloads_paid_then;
    [exact Hm | apply (Hk a) | reflexivity | reflexivity].
Qed.

Lemma reloads_paid_catch {A} (p : exn -> bool) (m h : M A) :
  sat (@reloads_paid) m -> sat (@reloads_paid) h ->
  sat (@reloads_paid) (catch p m h).
Proof.
  intros Hm Hh s. specialize (Hm s). unfold catch.
  destruct (outcome (m s)) as [a| e |]; try exact Hm.
  destruct (p e); [|exact Hm].
  eapply reloads_paid_then;
    [exact Hm | apply Hh | reflexivity | reflexivity].
Qed.

Lemma reloads_paid_await (w : World) {A} (ev : Event) (answer : nat -> Res A) :
  is_click_on "#recaptcha-reload-button" ev = false ->
  sat (@reloads_paid) (await w ev answer).
Proof.
  intros Hc s. destruct (suspend_frame w s) as (Hr & HL & _).
  apply reloads_paid_quiet; [exact HL | exact Hr|].
  unfold await. cbn [trace]. now rewrite count_cons, Hc.
Qed.

(** [retry] with [verify=False] below the limit: its trace up to the click
    on the reload button, and the cycle it re-enters. *)
Lemma retry_reload_run (w : World) (rec : M PyVal) (frame : string)
    (s : Challenger) :
  retried s + 1 < retry_times s ->
  let reset := set_captcha_token EmptyString
                 (set_dynamic false (set_retried (retried s + 1) s)) in
  let head := [ESetDynamic false; ESetCaptchaToken EmptyString;
               EPrint "[INFO] Reloading Captcha and Retrying";
               EClick frame "#recaptcha-reload-button" None] in
  match w_click w (clock s) frame "#recaptcha-reload-button" with
  | Ok _ =>
      retry w rec frame false s
      = mkRun (outcome (rec (suspend w reset)))
              (final (rec (suspend w reset)))
              (head ++ trace (rec (suspend w reset)))
  | Err e => retry w rec frame false s = mkRun (Raise e) (suspend w reset) head
  end.
Proof.
  intros Hbelow reset head.
  rewrite (retry_below_limit w rec frame false s Hbelow).
  unfold bind, assign_dynamic, assign_captcha_token, print, click, await.
  cbn. fold reset.
  destruct (w_click w (clock s) frame "#recaptcha-reload-button") as [[]|e];
    reflexivity.
Qed.

Lemma reloads_paid_retry (w : World) (rec : M PyVal) (frame : string) :
  sat (@reloads_paid) rec -> sat (@reloads_paid) (retry w rec frame false).
Proof.
  intros Hrec s.
  destruct (Z_lt_dec (retried s + 1) (retry_times s)) as [Hbelow|Hlimit].
  - pose proof (retry_reload_run w rec frame s Hbelow) as Hrun.
    cbn zeta in Hrun.
    set (reset := set_captcha_token EmptyString
                    (set_dynamic false (set_retried (retried s + 1) s)))
      in *.
    assert (Hr : retried (suspend w reset) = retried s + 1)
      by now destruct (suspend_frame w reset) as (-> & _).
    assert (HL : retry_times (suspend w reset) = retry_times s)
      by now destruct (suspend_frame w reset) as (_ & -> & _).
    destruct (w_click w (clock s) frame "#recaptcha-reload-button")
      as [[]|e]; rewrite Hrun.
    + destruct (Hrec (suspend w reset)) as (HL2 & Hm2 & Hc2 & Hlim2).
      unfold reloads_paid, limit_reached in *. cbn [final trace].
      rewrite count_app, Nat2Z.inj_add. rewrite HL, Hr in *.
      change (count (is_click_on "#recaptcha-reload-button")
                [ESetDynamic false; ESetCaptchaToken EmptyString;
                 EPrint "[INFO] Reloading Captcha and Retrying";
                 EClick frame "#recaptcha-reload-button" None])
        with 1%nat.
      repeat split; lia.
    + unfold reloads_paid, limit_reached. cbn [final trace].
      rewrite HL, Hr.
      change (count (is_click_on "#recaptcha-reload-button")
                [ESetDynamic false; ESetCaptchaToken EmptyString;
                 EPrint "[INFO] Reloading Captcha and Retrying";
                 EClick frame "#recaptcha-reload-button" None])
        with 1%nat.
      repeat split; lia.
  - rewrite retry_at_limit by lia.
    unfold reloads_paid, limit_reached. cbn. repeat split; lia.
Qed.

Lemma reloads_paid_retry_after_wait (rec : M PyVal) :
  sat (@reloads_paid) rec -> sat (@reloads_paid) (retry_after_wait rec).
Proof.
  intros Hrec s.
  destruct (Z_lt_dec (retried s + 1) (retry_times s)) as [Hbelow|Hlimit].
  - rewrite retry_after_wait_below_limit by exact Hbelow.
    destruct (Hrec (set_retried (retried s + 1) s))
      as (HL2 & Hm2 & Hc2 & Hlim2).
    unfold reloads_paid, limit_reached in *. cbn in *.
    repeat split; lia.
  - rewrite retry_after_wait_at_limit by lia.
    unfold reloads_paid, limit_reached. cbn. repeat split; lia.
Qed.

Lemma reloads_paid_open_challenge (w : World) (fuel : nat) :
  sat (@reloads_paid) (open_challenge w fuel).
Proof.
  apply sat_open_challenge.
  - intros A a s. now apply reloads_paid_quiet.
  - intros A B. apply reloads_paid_bind.
  - intros A p m h _. apply reloads_paid_catch.
  - intros A ev answer Hc _. now apply reloads_paid_await.
  - intros s. now apply reloads_paid_quiet.
  - intros msg s. now apply reloads_paid_quiet.
  - intros prompt image area s. now apply reloads_paid_quiet.
  - intros A s. now apply reloads_paid_quiet.
  - intros A msg s. now apply reloads_paid_quiet.
  - intros rec frame. apply reloads_paid_retry.
  - apply reloads_paid_retry_after_wait.
Qed.

Lemma reloads_paid_solve_recaptcha (w : World) (fuel : nat) :
  sat (@reloads_paid) (solve_recaptcha w fuel).
Proof.
  rewrite solve_recaptcha_unfold.
  apply reloads_paid_bind; [intros s; now apply reloads_paid_quiet|].
  intros _.
  apply reloads_paid_bind; [intros s; now apply reloads_paid_quiet|].
  intros _. apply reloads_paid_open_challenge.
Qed.

(** X10.  A call of [solve_recaptcha] clicks the reload button at most
    once per increment of [retried], and not for the increment that hits
    the limit: entered with [retried] below [retry_times], it reloads the
    challenge at most [retry_times - retried - 1] times; entered at or past
    the limit, it never reloads. *)
Theorem reload_clicks_bounded (w : World) (fuel : nat) (s : Challenger) :
  let r := solve_recaptcha w fuel s in
  let reloads :=
    Z.of_nat (count (is_click_on "#recaptcha-reload-button") (trace r)) in
  reloads <= retried (final r) - retried s
  /\ (retried s < retry_times s ->
      reloads <= retry_times s - retried s - 1)
  /\ (retry_times s <= retried s -> reloads = 0).
Proof.
  intros r reloads.
  destruct (reloads_paid_solve_recaptcha w fuel s)
    as (_ & Hmono & Hle & Hlim).
  fold r in Hmono, Hle, Hlim. fold reloads in Hle, Hlim.
  pose proof (retry_inv_solve_recaptcha w fuel s) as [_ Hinv].
  fold r in Hinv. unfold limit_reached in Hlim.
  split; [exact Hle|]. split.
  - intros Hlow.
    destruct Hinv as [[_ [Heq | Hlt]] | (_ & Hlt & Hmax)]; lia.
  - intros Hpast.
    destruct Hinv as [[_ [Heq | Hlt]] | (_ & Hlt & Hmax)]; lia.
Qed.

Lemma reload_clicks_bounded_witness :
  let s := init None 3 in
  let r := solve_recaptcha Scenario.blind 5 s in
  retried s < retry_times s
  /\ Z.of_nat (count (is_click_on "#recaptcha-reload-button") (trace r))
     <= retry_times s - retried s - 1
  /\ count (is_click_on "#recaptcha-reload-button") (trace r) = 2%nat.
Proof.
  intros s r. assert (H : retried s < retry_times s) by reflexivity.
  split; [exact H|].
  split; [|reflexivity].
  exact (proj1 (proj2 (reload_clicks_bounded Scenario.blind 5 s)) H).
Defined.

(* ================================================================= *)
(** * The loop of a dynamic challenge, in the cycle *)

(** [cycle] once the tiles are loaded and the first detection pass has
    returned: the loop of the dynamic challenge under its guard, then the end
    of the cycle. *)
Lemma cycle_after_detection (w : World) (fuel : nat) (rec : M PyVal)
    (prompt : string) (s : Challenger) (n : nat) (v : PyVal) :
  outcome (load_tiles w s) = Ret n ->
  let area_captcha := (n =? 16)%nat in
  let s1 := final (load_tiles w s) in
  let first := detect_tiles w rec prompt area_captcha area_captcha bframe s1 in
  outcome first = Ret v ->
  let s2 := final first in
  let rest :=
    bind (if dynamic s2 && negb area_captcha
          then dynamic_loop w fuel rec prompt area_captcha bframe v
          else ret v)
         (finish_cycle w rec) s2 in
  cycle w fuel rec prompt s
  = mkRun (outcome rest) (final rest)
          (trace (load_tiles w s) ++ trace first ++ trace rest).
Proof.
  intros Hload area_captcha s1 first Hfirst s2 rest. unfold cycle.
  rewrite (bind_ret_run _ _ s n Hload). fold area_captcha s1.
  rewrite (bind_ret_run _ _ s1 v Hfirst). fold first s2.
  rewrite bind_get_run. reflexivity.
Qed.

(** C2, as the code has it.  In the cycle, after a first detection pass
    that returned a boolean, the loop runs exactly when the observer has set
    [dynamic] and the challenge is not an area challenge, and the end of the
    cycle follows it.  On [False] the loop stops at once; on [True] it waits
    five seconds and runs the detector in verify mode, whose answer is a
    boolean again and the next one to test.  So it repeats exactly while the
    detector reports [True], tiles found and clicked, and whenever it ends it
    ends on the detector's [False]; it never retries. *)
Theorem dynamic_loop_repeats_while_detector_finds (w : World) (fuel : nat)
    (rec : M PyVal) (prompt : string) :
  (forall s n b,
     outcome (load_tiles w s) = Ret n ->
     let area_captcha := (n =? 16)%nat in
     let s1 := final (load_tiles w s) in
     let first :=
       detect_tiles w rec prompt area_captcha area_captcha bframe s1 in
     outcome first = Ret (VBool b) ->
     let s2 := final first in
     let rest :=
       bind (if dynamic s2 && negb area_captcha
             then dynamic_loop w fuel rec prompt area_captcha bframe (VBool b)
             else ret (VBool b))
            (finish_cycle w rec) s2 in
     cycle w fuel rec prompt s
     = mkRun (outcome rest) (final rest)
             (trace (load_tiles w s) ++ trace first ++ trace rest))
  /\ (forall area_captcha frame s,
        dynamic_loop w fuel rec prompt area_captcha frame (VBool false) s
        = mkRun (Ret (VBool false)) s [])
  /\ (forall area_captcha frame,
        dynamic_loop w (S fuel) rec prompt area_captcha frame (VBool true)
        = bind (wait_for_timeout w 5000)
               (fun _ =>
                  bind (detect_tiles w rec prompt area_captcha true frame)
                       (dynamic_loop w fuel rec prompt area_captcha frame)))
  /\ (forall area_captcha frame s v,
        outcome (detect_tiles w rec prompt area_captcha true frame s) = Ret v ->
        exists b, v = VBool b)
  /\ (forall area_captcha frame b s v,
        outcome (dynamic_loop w fuel rec prompt area_captcha frame
                              (VBool b) s) = Ret v ->
        v = VBool false)
  /\ (forall area_captcha frame b s,
        retried (final (dynamic_loop w fuel rec prompt area_captcha frame
                                     (VBool b) s)) = retried s)
  /\ (forall area_captcha frame b s rec',
        dynamic_loop w fuel rec' prompt area_captcha frame (VBool b) s
        = dynamic_loop w fuel rec prompt area_captcha frame (VBool b) s).
Proof.
  split; [|split; [|split; [|split; [|split; [|split]]]]].
  - intros s n b Hload area_captcha s1 first Hfirst s2 rest.
    now apply cycle_after_detection.
  - intros area_captcha frame s. now destruct fuel.
  - reflexivity.
  - intros area_captcha frame s v. apply detect_tiles_verify_bool.
  - intros area_captcha frame b s v H.
    destruct (dynamic_loop_exit w fuel rec prompt area_captcha frame
                (VBool b) s v H) as [Hfalsy [-> | ->]]; [|reflexivity].
    cbn in Hfalsy. now rewrite Hfalsy.
  - intros area_captcha frame b s. apply counter_untouched_dynamic_loop.
  - intros area_captcha frame b s rec'. apply dynamic_loop_rec.
Qed.

Lemma dynamic_loop_repeats_while_detector_finds_witness :
  let r := dynamic_loop Scenario.blind 3 (ret (VBool true)) "cars" false
                        bframe (VBool true) Scenario.holding_token in
  outcome r = Ret (VBool false)
  /\ VBool false = VBool false
  /\ retried (final r) = retried Scenario.holding_token.
Proof.
  intros r. assert (H : outcome r = Ret (VBool false)) by reflexivity.
  destruct (dynamic_loop_repeats_while_detector_finds
              Scenario.blind 3 (ret (VBool true)) "cars")
    as (_ & _ & _ & _ & Hexit & Hkeep & _).
  split; [exact H|].
  split; [exact (Hexit false bframe true Scenario.holding_token _ H)|].
  exact (Hkeep false bframe true Scenario.holding_token).
Defined.

(** C2 as stated fails.  On a nine-tile challenge the observer has seen to
    be dynamic, the first pass clicks a tile and returns [True]; the loop
    waits five seconds and runs the detector in verify mode, which finds
    nothing and gives its not-yet-passed signal [False]; on that the loop
    ends, and the cycle goes on to the submit and returns the token.  And
    while the detector keeps finding tiles, the loop keeps going. *)
Lemma dynamic_cycle_leaves_loop_on_false :
  let r := solve_recaptcha dynamic_nine_tiles 3 (init None 15) in
  let keen := dynamic_loop Scenario.stubborn 3 (ret (VBool true)) "cars"
                           false bframe (VBool true)
                           Scenario.holding_token in
  outcome r = Ret (VStr "TOKEN")
  /\ dynamic (final r) = true
  /\ count (is_wait_for_timeout 5000) (trace r) = 1%nat
  /\ trace r
     = [ESetDynamic false; ESetCaptchaToken EmptyString;
        EClick checkbox_frame ".recaptcha-checkbox-border" (Some 5000);
        EWaitFor bframe "//strong" 10000;
        EWaitForTimeout 2000;
        ETextContent bframe "//strong";
        EAll bframe tile_locator;
        EScreenshot; EDetect "cars" false; EMouseClick 120 240;
        EWaitForTimeout 5000; EScreenshot; EDetect "cars" false;
        EClick bframe "#recaptcha-verify-button" (Some 5000);
        EEvaluate "grecaptcha.getResponse()"]
  /\ outcome keen = OutOfFuel
  /\ count (is_wait_for_timeout 5000) (trace keen) = 3%nat.
Proof. vm_compute. repeat split. Qed.

(* ================================================================= *)
(** * Resets, reloads and detector failures *)

Lemma reloads_follow_failures_app {A B C} (s1 s2 s : Challenger)
    (r1 : Run A) (r2 : Run B) (r : Run C) :
  reloads_follow_failures s1 r1 -> reloads_follow_failures s2 r2 ->
  trace r = (trace r1 ++ trace r2)%list ->
  reloads_follow_failures s r.
Proof.
  unfold reloads_follow_failures. intros H1 H2 ->. rewrite !count_app. lia.
Qed.

Lemma reloads_follow_failures_none {A} (s : Challenger) (r : Run A) :
  count (is_click_on "#recaptcha-reload-button") (trace r) = 0%nat ->
  reloads_follow_failures s r.
Proof. unfold reloads_follow_failures. intros ->. lia. Qed.

Lemma reloads_follow_failures_bind {A B} (m : M A) (k : A -> M B) :
  sat (@reloads_follow_failures) m ->
  (forall a, sat (@reloads_follow_failures) (k a)) ->
  sat (@reloads_follow_failures) (bind m k).
Proof.
  intros Hm Hk s. specialize (Hm s). unfold bind.
  destruct (outcome (m s)) as [a| e |]; try exact Hm.
  eapply reloads_follow_failures_app; [exact Hm | apply (Hk a) | reflexivity].
Qed.

Lemma reloads_follow_failures_catch {A} (p : exn -> bool) (m h : M A) :
  sat (@reloads_follow_failures) m -> sat (@reloads_follow_failures) h ->
  sat (@reloads_follow_failures) (catch p m h).
Proof.
  intros Hm Hh s. specialize (Hm s). unfold catch.
  destruct (outcome (m s)) as [a| e |]; try exact Hm.
  destruct (p e); [|exact Hm].
  eapply reloads_follow_failures_app; [exact Hm | apply Hh | reflexivity].
Qed.

Lemma reloads_follow_failures_await (w : World) {A} (ev : Event)
    (answer : nat -> Res A) :
  is_click_on "#recaptcha-reload-button" ev = false ->
  sat (@reloads_follow_failures) (await w ev answer).
Proof.
  intros Hc s. apply reloads_follow_failures_none.
  unfold await. cbn [trace]. now rewrite count_cons, Hc.
Qed.

Lemma bind_print_run {B} (msg : string) (k : unit -> M B) (s : Challenger) :
  bind (print msg) k s
  = mkRun (outcome (k tt s)) (final (k tt s)) (EPrint msg :: trace (k tt s)).
Proof. reflexivity. Qed.

Section Failures.

Variable w : World.

Ltac failures_rule :=
  first
    [ intros ? ? s; now apply reloads_follow_failures_none
    | intros ? ? ?; apply reloads_follow_failures_bind
    | intros ? ? ? ? _; apply reloads_follow_failures_catch
    | intros ? ? ? Hc _; now apply reloads_follow_failures_await
    | intros s; now apply reloads_follow_failures_none
    | intros ? s; now apply reloads_follow_failures_none
    | intros ? ? ? s; now apply reloads_follow_failures_none ].

Lemma failures_check_captcha_visible :
  sat (@reloads_follow_failures) (check_captcha_visible w).
Proof. apply sat_check_captcha_visible; failures_rule. Qed.

Lemma failures_click_checkbox :
  sat (@reloads_follow_failures) (click_checkbox w).
Proof. apply sat_click_checkbox; failures_rule. Qed.

Lemma failures_click_coordinates (coordinates : list (Z * Z)) :
  sat (@reloads_follow_failures) (click_coordinates w coordinates).
Proof. apply sat_click_coordinates; failures_rule. Qed.

Lemma failures_frame_did_not_load :
  sat (@reloads_follow_failures) (frame_did_not_load w).
Proof. apply sat_frame_did_not_load; failures_rule. Qed.

Lemma failures_read_prompt : sat (@reloads_follow_failures) (read_prompt w).
Proof. apply sat_read_prompt; failures_rule. Qed.

Lemma failures_load_tiles : sat (@reloads_follow_failures) (load_tiles w).
Proof. apply sat_load_tiles; failures_rule. Qed.

Lemma failures_submit_challenge (frame : string) :
  sat (@reloads_follow_failures) (submit_challenge w frame).
Proof. apply sat_submit_challenge; failures_rule. Qed.

Lemma failures_wait_for_token (k : nat) :
  sat (@reloads_follow_failures) (wait_for_token w k).
Proof. apply sat_wait_for_token; failures_rule. Qed.

Lemma failures_dynamic_loop (fuel : nat) (rec : M PyVal) (prompt : string)
    (area_captcha : bool) (frame : string) (v : PyVal) :
  sat (@reloads_follow_failures)
      (dynamic_loop w fuel rec prompt area_captcha frame v).
Proof. apply sat_dynamic_loop; failures_rule. Qed.

(** [retry] clicks the reload button once more than the cycle it
    re-enters. *)
Lemma failures_retry (rec : M PyVal) (frame : string) (s : Challenger) :
  sat (@reloads_follow_failures) rec ->
  (count (is_click_on "#recaptcha-reload-button")
         (trace (retry w rec frame false s))
   <= S (count (is_print detector_failed)
               (trace (retry w rec frame false s))))%nat.
Proof.
  intros Hrec.
  destruct (Z_lt_dec (retried s + 1) (retry_times s)) as [Hbelow|Hlimit].
  - pose proof (retry_reload_run w rec frame s Hbelow) as Hrun.
    cbn zeta in Hrun.
    destruct (w_click w (clock s) frame "#recaptcha-reload-button")
      as [[]|e]; rewrite Hrun; cbn [trace].
    + match goal with
      | |- context [rec ?s'] => specialize (Hrec s')
      end.
      unfold reloads_follow_failures in Hrec.
      rewrite !count_app.
      change (count (is_click_on "#recaptcha-reload-button")
                [ESetDynamic false; ESetCaptchaToken EmptyString;
                 EPrint "[INFO] Reloading Captcha and Retrying";
                 EClick frame "#recaptcha-reload-button" None])
        with 1%nat.
      lia.
    + change (count (is_click_on "#recaptcha-reload-button")
                [ESetDynamic false; ESetCaptchaToken EmptyString;
                 EPrint "[INFO] Reloading Captcha and Retrying";
                 EClick frame "#recaptcha-reload-button" None])
        with 1%nat.
      lia.
  - rewrite retry_at_limit by lia. cbn. lia.
Qed.

Lemma failures_retry_after_wait (rec : M PyVal) :
  sat (@reloads_follow_failures) rec ->
  sat (@reloads_follow_failures) (retry_after_wait rec).
Proof.
  intros Hrec s.
  destruct (Z_lt_dec (retried s + 1) (retry_times s)) as [Hbelow|Hlimit].
  - rewrite retry_after_wait_below_limit by exact Hbelow. apply Hrec.
  - rewrite retry_after_wait_at_limit by lia.
    now apply reloads_follow_failures_none.
Qed.

(** The failure message of [detect_tiles] pays for the reload of the
    [retry] it calls. *)
Lemma failures_detect_tiles (rec : M PyVal) (prompt : string)
    (area_captcha verify : bool) (frame : string) :
  sat (@reloads_follow_failures) rec ->
  sat (@reloads_follow_failures)
      (detect_tiles w rec prompt area_captcha verify frame).
Proof.
  intros Hrec. unfold detect_tiles.
  apply reloads_follow_failures_bind;
    [now apply reloads_follow_failures_await | intros image].
  apply reloads_follow_failures_bind;
    [intros s; now apply reloads_follow_failures_none | intros found].
  destruct (negb (existsb (fun b => b) (fst found))).
  - destruct verify; cbn [negb].
    + intros s. now apply reloads_follow_failures_none.
    + intros s. unfold reloads_follow_failures.
      pose proof (failures_retry rec frame s Hrec) as H.
      rewrite bind_print_run. cbn [trace]. rewrite !count_cons.
      change (is_click_on "#recaptcha-reload-button"
                (EPrint "[ERROR] Detector did not return any Results."))
        with false.
      change (is_print detector_failed
                (EPrint "[ERROR] Detector did not return any Results."))
        with true.
      cbv beta iota. lia.
  - apply reloads_follow_failures_bind;
      [apply failures_click_coordinates | intros _ s].
    now apply reloads_follow_failures_none.
Qed.

Lemma failures_finish_cycle (rec : M PyVal) (v : PyVal) :
  sat (@reloads_follow_failures) rec ->
  sat (@reloads_follow_failures) (finish_cycle w rec v).
Proof.
  intros Hrec. unfold finish_cycle.
  destruct (is_str v); [intros s; now apply reloads_follow_failures_none|].
  apply reloads_follow_failures_bind;
    [apply failures_submit_challenge | intros _].
  apply reloads_follow_failures_bind;
    [apply failures_wait_for_token | intros [t|]].
  - intros s. now apply reloads_follow_failures_none.
  - now apply failures_retry_after_wait.
Qed.

Lemma failures_cycle (fuel : nat) (rec : M PyVal) (prompt : string) :
  sat (@reloads_follow_failures) rec ->
  sat (@reloads_follow_failures) (cycle w fuel rec prompt).
Proof.
  intros Hrec. unfold cycle.
  apply reloads_follow_failures_bind; [apply failures_load_tiles | intros n].
  apply reloads_follow_failures_bind;
    [now apply failures_detect_tiles | intros v].
  apply reloads_follow_failures_bind;
    [intros s; now apply reloads_follow_failures_none | intros s0].
  apply reloads_follow_failures_bind.
  - destruct (dynamic s0 && negb (n =? 16)%nat);
      [apply failures_dynamic_loop|].
    intros s. now apply reloads_follow_failures_none.
  - intros v'. now apply (failures_finish_cycle rec v').
Qed.

Lemma failures_handle_recaptcha (fuel : nat) :
  sat (@reloads_follow_failures) (handle_recaptcha w fuel).
Proof.
  induction fuel as [|fuel IH]; cbn [handle_recaptcha].
  - intros s. now apply reloads_follow_failures_none.
  - apply reloads_follow_failures_bind.
    + apply reloads_follow_failures_catch.
      * apply reloads_follow_failures_bind;
          [apply failures_read_prompt | intros p s].
        now apply reloads_follow_failures_none.
      * apply reloads_follow_failures_bind;
          [apply failures_frame_did_not_load | intros v s].
        now apply reloads_follow_failures_none.
    + intros [prompt|v]; [now apply failures_cycle|].
      intros s. now apply reloads_follow_failures_none.
Qed.

Lemma failures_open_challenge (fuel : nat) :
  sat (@reloads_follow_failures) (open_challenge w fuel).
Proof.
  unfold open_challenge.
  apply reloads_follow_failures_bind;
    [apply failures_click_checkbox | intros _].
  apply reloads_follow_failures_bind;
    [apply failures_check_captcha_visible | intros visible].
  destruct (negb visible).
  - apply reloads_follow_failures_bind;
      intros; intros s; now apply reloads_follow_failures_none.
  - apply reloads_follow_failures_bind;
      [now apply reloads_follow_failures_await | intros _].
    apply failures_handle_recaptcha.
Qed.

End Failures.

(** The re-entry after the token wait: the cycle starts again in the state
    the wait ended in, but for the counter. *)
Lemma finish_cycle_reenters (w : World) (rec : M PyVal) (b : bool)
    (s : Challenger) :
  outcome (submit_challenge w bframe s) = Ret tt ->
  let s1 := final (submit_challenge w bframe s) in
  outcome (wait_for_token w 5 s1) = Ret None ->
  let s2 := final (wait_for_token w 5 s1) in
  retried s2 + 1 < retry_times s2 ->
  let again := rec (set_retried (retried s2 + 1) s2) in
  finish_cycle w rec (VBool b) s
  = mkRun (outcome again) (final again)
          (trace (submit_challenge w bframe s)
           ++ trace (wait_for_token w 5 s1) ++ trace again).
Proof.
  intros Hsubmit s1 Hwait s2 Hbelow again. unfold finish_cycle.
  cbn [is_str]. rewrite (bind_ret_run _ _ s tt Hsubmit). fold s1.
  rewrite (bind_ret_run _ _ s1 None Hwait). fold s2.
  now rewrite (retry_after_wait_below_limit rec s2 Hbelow).
Qed.

(** A pass that is not a verify pass and finds nothing prints the failure
    and calls [retry]. *)
Lemma detect_tiles_failure_retries (w : World) (rec : M PyVal)
    (prompt : string) (area_captcha : bool) (frame : string)
    (s : Challenger) (image : Image) :
  w_screenshot w (clock s) = Ok image ->
  existsb (fun b => b) (fst (w_detect w prompt image area_captcha)) = false ->
  let again := retry w rec frame false (suspend w s) in
  detect_tiles w rec prompt area_captcha false frame s
  = mkRun (outcome again) (final again)
          ([EScreenshot; EDetect prompt area_captcha; EPrint detector_failed]
           ++ trace again).
Proof.
  intros Hshot Hnone again. unfold detect_tiles, screenshot.
  rewrite (bind_await_ok w _ _ _ s image Hshot), bind_detect_run.
  rewrite Hnone. cbn [negb]. rewrite bind_print_run. reflexivity.
Qed.

(** C4, as the code has it.  A call of [solve_recaptcha] starts with the
    reset of [dynamic] and [captcha_token].  After that the coroutine writes
    to the two fields only in [retry], which below the limit resets both and
    clicks the reload button before it re-enters the cycle: the resets of a
    call are one more than its clicks on the reload button, there is no other
    write, and there are no more reloads than failures the detector reported,
    each of which (no match on a pass that is not a verify pass) calls
    [retry].  The re-entry after the exhausted token wait resets nothing: the
    cycle starts again in the very state the wait ended in, with only
    [retried] incremented and no event in between. *)
Theorem resets_at_entry_and_retry (w : World) :
  (forall fuel s,
     let tr := trace (solve_recaptcha w fuel s) in
     let reloads := count (is_click_on "#recaptcha-reload-button") tr in
     (exists rest,
        tr = ESetDynamic false :: ESetCaptchaToken EmptyString :: rest)
     /\ count is_reset_dynamic tr = (1 + reloads)%nat
     /\ count is_reset_token tr = (1 + reloads)%nat
     /\ count is_field_write tr = (2 * (1 + reloads))%nat
     /\ (reloads <= count (is_print detector_failed) tr)%nat)
  /\ (forall rec frame s,
        retried s + 1 < retry_times s ->
        w_click w (clock s) frame "#recaptcha-reload-button" = Ok tt ->
        let reset := set_captcha_token EmptyString
                       (set_dynamic false (set_retried (retried s + 1) s)) in
        retry w rec frame false s
        = mkRun (outcome (rec (suspend w reset)))
                (final (rec (suspend w reset)))
                ([ESetDynamic false; ESetCaptchaToken EmptyString;
                  EPrint "[INFO] Reloading Captcha and Retrying";
                  EClick frame "#recaptcha-reload-button" None]
                 ++ trace (rec (suspend w reset))))
  /\ (forall rec prompt area_captcha frame s image,
        w_screenshot w (clock s) = Ok image ->
        existsb (fun b => b) (fst (w_detect w prompt image area_captcha))
        = false ->
        let again := retry w rec frame false (suspend w s) in
        detect_tiles w rec prompt area_captcha false frame s
        = mkRun (outcome again) (final again)
                ([EScreenshot; EDetect prompt area_captcha;
                  EPrint detector_failed] ++ trace again))
  /\ (forall fuel rec prompt s n v,
        outcome (load_tiles w s) = Ret n ->
        let area_captcha := (n =? 16)%nat in
        let s1 := final (load_tiles w s) in
        let first :=
          detect_tiles w rec prompt area_captcha area_captcha bframe s1 in
        outcome first = Ret v ->
        let s2 := final first in
        let rest :=
          bind (if dynamic s2 && negb area_captcha
                then dynamic_loop w fuel rec prompt area_captcha bframe v
                else ret v)
               (finish_cycle w rec) s2 in
        cycle w fuel rec prompt s
        = mkRun (outcome rest) (final rest)
                (trace (load_tiles w s) ++ trace first ++ trace rest))
  /\ (forall rec b s,
        outcome (submit_challenge w bframe s) = Ret tt ->
        let s1 := final (submit_challenge w bframe s) in
        outcome (wait_for_token w 5 s1) = Ret None ->
        let s2 := final (wait_for_token w 5 s1) in
        retried s2 + 1 < retry_times s2 ->
        let again := rec (set_retried (retried s2 + 1) s2) in
        finish_cycle w rec (VBool b) s
        = mkRun (outcome again) (final again)
                (trace (submit_challenge w bframe s)
                 ++ trace (wait_for_token w 5 s1) ++ trace again)).
Proof.
  split; [|split; [|split; [|split]]].
  - intros fuel s tr reloads.
    set (s0 := set_captcha_token EmptyString (set_dynamic false s)).
    pose proof (resets_match_reloads_open_challenge w fuel s0)
      as (H1 & H2 & H3).
    pose proof (failures_open_challenge w fuel s0) as H4.
    unfold reloads_follow_failures in H4.
    assert (Htr : tr = ESetDynamic false :: ESetCaptchaToken EmptyString
                       :: trace (open_challenge w fuel s0)).
    { unfold tr. rewrite solve_recaptcha_unfold.
      unfold bind, assign_dynamic, assign_captcha_token. reflexivity. }
    split; [eexists; exact Htr|].
    unfold reloads. rewrite Htr, !count_cons. cbn. lia.
  - intros rec frame s Hbelow Hclick reset.
    pose proof (retry_reload_run w rec frame s Hbelow) as Hrun.
    cbn zeta in Hrun. rewrite Hclick in Hrun. exact Hrun.
  - intros rec prompt area_captcha frame s image.
    apply detect_tiles_failure_retries.
  - intros fuel rec prompt s n v. apply cycle_after_detection.
  - intros rec b s. apply finish_cycle_reenters.
Qed.

Lemma resets_at_entry_and_retry_witness :
  let s := init None 15 in
  let s1 := final (submit_challenge Scenario.stubborn bframe s) in
  let s2 := final (wait_for_token Scenario.stubborn 5 s1) in
  outcome (submit_challenge Scenario.stubborn bframe s) = Ret tt
  /\ outcome (wait_for_token Scenario.stubborn 5 s1) = Ret None
  /\ retried s2 + 1 < retry_times s2
  /\ outcome (finish_cycle Scenario.stubborn (ret (VBool false))
                           (VBool true) s) = Ret (VBool false)
  /\ dynamic (final (finish_cycle Scenario.stubborn (ret (VBool false))
                                  (VBool true) Scenario.holding_token))
     = true.
Proof.
  intros s s1 s2.
  assert (Hsubmit : outcome (submit_challenge Scenario.stubborn bframe s)
                    = Ret tt) by reflexivity.
  assert (Hwait : outcome (wait_for_token Scenario.stubborn 5 s1) = Ret None)
    by reflexivity.
  assert (Hbelow : retried s2 + 1 < retry_times s2) by reflexivity.
  split; [exact Hsubmit|]. split; [exact Hwait|]. split; [exact Hbelow|].
  destruct (resets_at_entry_and_retry Scenario.stubborn)
    as (_ & _ & _ & _ & Hagain).
  split.
  - exact (f_equal outcome
             (Hagain (ret (VBool false)) true s Hsubmit Hwait Hbelow)).
  - reflexivity.
Defined.
